(** * Manhwa text extractor: the marker protocol and the extraction lifecycle

    A shallow embedding of [src/App.tsx]: the legend table [LEGEND_ITEMS],
    the line renderer [renderText] of [ResultDisplay], and the handlers
    [handleImageSelect] and [handleExtractText] of [App] together with the
    event loop that runs them. *)

From Stdlib Require Import NArith Ascii String.
From stdpp Require Import gmap list strings.

Local Open Scope N_scope.

(** ** JavaScript strings

    A JavaScript string is a sequence of UTF-16 code units; [startsWith],
    [substring], [split] and [trim] all work on code units. *)

Module JsString.

Abbreviation jsstring := (list N).

(** An ASCII literal of the source, as code units. *)
Definition of_ascii (s : string) : jsstring :=
  (λ a, N_of_ascii a) <$> list_ascii_of_string s.

(** [s.startsWith(p)]: [p] is a prefix of [s]. *)
Fixpoint startsWith (s p : jsstring) {struct p} : bool :=
  match p, s with
  | [], _ => true
  | _ :: _, [] => false
  | b :: p', a :: s' => (a =? b) && startsWith s' p'
  end.

(** [s.substring(start)]: the code units from [start] on; a [start] beyond
    the end is clamped to the length. *)
Definition substring (start : nat) (s : jsstring) : jsstring := drop start s.

(** The code units [trim] strips: ECMAScript's WhiteSpace and
    LineTerminator productions. *)
Definition isWhiteSpace (c : N) : bool :=
  ((0x9 <=? c) && (c <=? 0xD)) || (c =? 0x20) || (c =? 0xA0) || (c =? 0x1680)
  || ((0x2000 <=? c) && (c <=? 0x200A)) || (c =? 0x2028) || (c =? 0x2029)
  || (c =? 0x202F) || (c =? 0x205F) || (c =? 0x3000) || (c =? 0xFEFF).

Fixpoint trimStart (s : jsstring) : jsstring :=
  match s with
  | [] => []
  | c :: s' => if isWhiteSpace c then trimStart s' else s
  end.

Definition trimEnd (s : jsstring) : jsstring := reverse (trimStart (reverse s)).

Definition trim (s : jsstring) : jsstring := trimEnd (trimStart s).

(** [s.split(sep)] for a one-code-unit separator: the segments between the
    occurrences of [sep]; the empty string gives one empty segment. *)
Fixpoint split (sep : N) (s : jsstring) : list jsstring :=
  match s with
  | [] => [[]]
  | c :: s' =>
      if c =? sep then [] :: split sep s'
      else match split sep s' with
           | [] => [[c]]
           | seg :: segs => (c :: seg) :: segs
           end
  end.

(** [segs.join(sep)], the inverse of [split]. *)
Fixpoint join (sep : N) (segs : list jsstring) : jsstring :=
  match segs with
  | [] => []
  | [seg] => seg
  | seg :: segs' => seg ++ sep :: join sep segs'
  end.

(** A string is truthy when it is not empty. *)
Definition truthy (s : jsstring) : bool :=
  match s with [] => false | _ :: _ => true end.

End JsString.

Import JsString.

(** The line separator of [renderText]. *)
Definition LF : N := 0xA.

(** ** The legend *)

Record LegendItem : Type := mkItem {
  char : jsstring;
  description : jsstring;
  color : jsstring
}.

Global Instance LegendItem_eq_dec : EqDecision LegendItem.
Proof. solve_decision. Defined.

Definition LEGEND_ITEMS : list LegendItem := [
  (* نص داخل فقاعة كلام عادية *)
  mkItem (of_ascii "#")
    [0x646; 0x635; 0x20; 0x62F; 0x627; 0x62E; 0x644; 0x20; 0x641; 0x642; 0x627;
     0x639; 0x629; 0x20; 0x643; 0x644; 0x627; 0x645; 0x20; 0x639; 0x627; 0x62F;
     0x64A; 0x629]
    (of_ascii "text-cyan-400");
  (* نص داخل فقاعة تفكير أو همس *)
  mkItem (of_ascii "$")
    [0x646; 0x635; 0x20; 0x62F; 0x627; 0x62E; 0x644; 0x20; 0x641; 0x642; 0x627;
     0x639; 0x629; 0x20; 0x62A; 0x641; 0x643; 0x64A; 0x631; 0x20; 0x623; 0x648;
     0x20; 0x647; 0x645; 0x633]
    (of_ascii "text-purple-400");
  (* نص داخل مربع السرد *)
  mkItem (of_ascii "&")
    [0x646; 0x635; 0x20; 0x62F; 0x627; 0x62E; 0x644; 0x20; 0x645; 0x631; 0x628;
     0x639; 0x20; 0x627; 0x644; 0x633; 0x631; 0x62F]
    (of_ascii "text-amber-400");
  (* مؤثرات صوتية (SFX) *)
  mkItem (of_ascii "(")
    [0x645; 0x624; 0x62B; 0x631; 0x627; 0x62A; 0x20; 0x635; 0x648; 0x62A; 0x64A;
     0x629; 0x20; 0x28; 0x53; 0x46; 0x58; 0x29]
    (of_ascii "text-orange-400");
  (* نص داخل فقاعة صراخ *)
  mkItem (of_ascii ")")
    [0x646; 0x635; 0x20; 0x62F; 0x627; 0x62E; 0x644; 0x20; 0x641; 0x642; 0x627;
     0x639; 0x629; 0x20; 0x635; 0x631; 0x627; 0x62E]
    (of_ascii "text-red-400");
  (* نص داخل فقاعة نظام أو شاشة معلومات *)
  mkItem (of_ascii "/")
    [0x646; 0x635; 0x20; 0x62F; 0x627; 0x62E; 0x644; 0x20; 0x641; 0x642; 0x627;
     0x639; 0x629; 0x20; 0x646; 0x638; 0x627; 0x645; 0x20; 0x623; 0x648; 0x20;
     0x634; 0x627; 0x634; 0x629; 0x20; 0x645; 0x639; 0x644; 0x648; 0x645; 0x627;
     0x62A]
    (of_ascii "text-green-400");
  (* نص آخر غير مصنف *)
  mkItem (of_ascii "_")
    [0x646; 0x635; 0x20; 0x622; 0x62E; 0x631; 0x20; 0x63A; 0x64A; 0x631; 0x20;
     0x645; 0x635; 0x646; 0x641]
    (of_ascii "text-gray-400")
].

(** ** The line renderer of [ResultDisplay] *)

(** What [renderText] returns for one line: the two-span row of a marked
    line, or the bare [div] of an unmarked one. [key] is the line's index. *)
Inductive Row : Type :=
  | MarkedRow (key : nat) (marker : LegendItem) (text : jsstring)
  | PlainRow (key : nat) (line : jsstring).

Section Renderer.

Variable legend : list LegendItem.

(** [LEGEND_ITEMS.find(item => line.startsWith(item.char))] *)
Definition findMarker (line : jsstring) : option LegendItem :=
  find (λ item, startsWith line (char item)) legend.

Definition renderLine (index : nat) (line : jsstring) : Row :=
  match findMarker line with
  | Some marker => MarkedRow index marker (trim (substring 1 line))
  | None => PlainRow index line
  end.

Definition renderTextOver (text : jsstring) : list Row :=
  imap renderLine (split LF text).

End Renderer.

Definition renderText (text : jsstring) : list Row :=
  renderTextOver LEGEND_ITEMS text.

(** The protocol's view of a row: marker character, label and text. *)
Record ClassifiedLine : Type := mkLine {
  cl_marker : option jsstring;
  cl_label : option jsstring;
  cl_text : jsstring
}.

Definition classified (r : Row) : ClassifiedLine :=
  match r with
  | MarkedRow _ marker text => mkLine (Some (char marker)) (Some (description marker)) text
  | PlainRow _ line => mkLine None None line
  end.

Definition parse (text : jsstring) : list ClassifiedLine :=
  classified <$> renderText text.

(** The classification of one line, whatever its index. *)
Definition classifyLine (line : jsstring) : ClassifiedLine :=
  classified (renderLine LEGEND_ITEMS 0 line).

(** *** The protocol as the specification words it *)

(** The six structural markers the specification lists: [#$&()/]. *)
Definition SIX_MARKERS : list N := of_ascii "#$&()/".

(** Exact first-character lookup: the legend as a table keyed by marker,
    read at the line's first code unit. *)
Definition markerTable (legend : list LegendItem) : gmap (list N) LegendItem :=
  list_to_map ((λ item, (char item, item)) <$> legend).

Definition lookupMarker (legend : list LegendItem) (line : jsstring) : option LegendItem :=
  match line with
  | [] => None
  | c :: _ => markerTable legend !! [c]
  end.

(** A legend fit for lookup: one code unit per marker, no marker twice. *)
Definition singleChars (legend : list LegendItem) : Prop :=
  Forall (λ item, length (char item) = 1%nat) legend.

Definition distinctChars (legend : list LegendItem) : Prop :=
  NoDup (char <$> legend).

(** [t] is [s] with its leading and trailing whitespace removed. *)
Definition blank (c : N) : Prop := isWhiteSpace c = true.

Definition solid (o : option N) : Prop := ∀ c, o = Some c → isWhiteSpace c = false.

Definition Trimmed (s t : jsstring) : Prop :=
  ∃ pre post, s = pre ++ t ++ post ∧ Forall blank pre ∧ Forall blank post
              ∧ solid (head t) ∧ solid (last t).

(** The number of occurrences of [sep] in [s]. *)
Definition occurrences (sep : N) (s : jsstring) : nat :=
  length (filter (λ c, c = sep) s).

(** ** The [App] component

    [App] holds five state slots. Its handlers run on an event loop: a
    handler runs until it returns or until an [await], and a suspended
    [handleExtractText] resumes when the promise it awaits settles. *)

Record File : Type := mkFile {
  file_name : jsstring;
  file_type : jsstring;
  file_content : list N
}.

(** The object URL of [URL.createObjectURL]: a fresh handle per call. *)
Definition Url : Type := nat.

Record AppState : Type := mkApp {
  imageFile : option File;
  imageUrl : option Url;
  extractedText : jsstring;
  isLoading : bool;
  error : option jsstring
}.

(** A thrown value or the reason of a rejected promise. *)
Record JsError : Type := mkError { error_detail : jsstring }.

(** How an awaited promise settles. *)
Inductive Outcome : Type :=
  | Fulfilled (value : jsstring)
  | Rejected (reason : JsError).

(** Calls into the two imported collaborators. *)
Inductive Call : Type :=
  | CallFileToBase64 (file : File)
  | CallExtractTextFromImage (base64Image mimeType : jsstring).

(** A suspended [handleExtractText]: the [await] it stopped at, with the
    [imageFile] its closure captured. *)
Inductive Task : Type :=
  | AwaitFileToBase64 (captured : File)
  | AwaitExtractTextFromImage (captured : File).

Record World : Type := mkWorld {
  app : AppState;
  inflight : gmap nat Task;
  next_task : nat;
  next_url : Url;
  calls : list Call;
  console : list JsError;
  unhandled : list JsError
}.

(** *** Handler code: state and exceptions *)

Inductive Res (A : Type) : Type :=
  | Ok (a : A)
  | Throw (e : JsError).
Arguments Ok {A} a.
Arguments Throw {A} e.

Definition M (A : Type) : Type := World → Res A * World.

Global Instance M_ret : MRet M := λ A a w, (Ok a, w).

Global Instance M_bind : MBind M := λ A B k m w,
  match m w with
  | (Ok a, w1) => k a w1
  | (Throw e, w1) => (Throw e, w1)
  end.

Definition modifyApp (f : AppState → AppState) : M unit := λ w,
  (Ok (), mkWorld (f (app w)) (inflight w) (next_task w) (next_url w)
             (calls w) (console w) (unhandled w)).

Definition getApp : M AppState := λ w, (Ok (app w), w).

Definition setImageFile (v : option File) : M unit :=
  modifyApp (λ s, mkApp v (imageUrl s) (extractedText s) (isLoading s) (error s)).
Definition setImageUrl (v : option Url) : M unit :=
  modifyApp (λ s, mkApp (imageFile s) v (extractedText s) (isLoading s) (error s)).
Definition setExtractedText (v : jsstring) : M unit :=
  modifyApp (λ s, mkApp (imageFile s) (imageUrl s) v (isLoading s) (error s)).
Definition setIsLoading (v : bool) : M unit :=
  modifyApp (λ s, mkApp (imageFile s) (imageUrl s) (extractedText s) v (error s)).
Definition setError (v : option jsstring) : M unit :=
  modifyApp (λ s, mkApp (imageFile s) (imageUrl s) (extractedText s) (isLoading s) v).

Definition createObjectURL (file : File) : M Url := λ w,
  (Ok (next_url w), mkWorld (app w) (inflight w) (next_task w) (S (next_url w))
                      (calls w) (console w) (unhandled w)).

Definition invoke (c : Call) : M unit := λ w,
  (Ok (), mkWorld (app w) (inflight w) (next_task w) (next_url w)
             (calls w ++ [c]) (console w) (unhandled w)).

Definition console_error (err : JsError) : M unit := λ w,
  (Ok (), mkWorld (app w) (inflight w) (next_task w) (next_url w)
             (calls w) (console w ++ [err]) (unhandled w)).

(** The value of [await p] once [p] has settled: a rejection is thrown at
    the [await]. A collaborator that throws before it returns its promise
    reaches the same [catch], and is read as a promise already rejected. *)
Definition awaited (o : Outcome) : M jsstring := λ w,
  match o with
  | Fulfilled v => (Ok v, w)
  | Rejected e => (Throw e, w)
  end.

(** The two messages of [setError]. *)

(* الرجاء اختيار صورة أولاً. *)
Definition MSG_NO_IMAGE : jsstring :=
  [0x627; 0x644; 0x631; 0x62C; 0x627; 0x621; 0x20; 0x627; 0x62E; 0x62A; 0x64A;
   0x627; 0x631; 0x20; 0x635; 0x648; 0x631; 0x629; 0x20; 0x623; 0x648; 0x644;
   0x627; 0x64B; 0x2E].

(* حدث خطأ أثناء استخراج النص. الرجاء المحاولة مرة أخرى. *)
Definition MSG_EXTRACT_FAILED : jsstring :=
  [0x62D; 0x62F; 0x62B; 0x20; 0x62E; 0x637; 0x623; 0x20; 0x623; 0x62B; 0x646;
   0x627; 0x621; 0x20; 0x627; 0x633; 0x62A; 0x62E; 0x631; 0x627; 0x62C; 0x20;
   0x627; 0x644; 0x646; 0x635; 0x2E; 0x20; 0x627; 0x644; 0x631; 0x62C; 0x627;
   0x621; 0x20; 0x627; 0x644; 0x645; 0x62D; 0x627; 0x648; 0x644; 0x629; 0x20;
   0x645; 0x631; 0x629; 0x20; 0x623; 0x62E; 0x631; 0x649; 0x2E].

(** *** [handleImageSelect] *)

Definition handleImageSelect (file : File) : M unit :=
  setImageFile (Some file);;
  url ← createObjectURL file;
  setImageUrl (Some url);;
  setExtractedText [];;
  setError None.

(** *** [handleExtractText] *)

(** Where a run of the handler stops: at an [await], or at its end. *)
Inductive Progress : Type :=
  | Suspend (t : Task)
  | Finish.

(** [try { body } catch (err) { handler } finally { fin }] around a body
    that may stop at an [await]: a suspended body is still inside [try]; a
    body that ends runs [fin]; a body that throws runs [handler] and then
    [fin], and what [handler] or [fin] throws leaves the statement. *)
Definition try_catch_finally
    (body : M Progress) (handler : JsError → M unit) (fin : M unit) : M Progress := λ w,
  match body w with
  | (Ok (Suspend t), w1) => (Ok (Suspend t), w1)
  | (Ok Finish, w1) => (fin;; mret Finish) w1
  | (Throw err, w1) =>
      match handler err w1 with
      | (Ok _, w2) => (fin;; mret Finish) w2
      | (Throw err2, w2) =>
          match fin w2 with
          | (Ok _, w3) => (Throw err2, w3)
          | (Throw err3, w3) => (Throw err3, w3)
          end
      end
  end.

Definition catch_block (err : JsError) : M unit :=
  console_error err;;
  setError (Some MSG_EXTRACT_FAILED).

Definition finally_block : M unit := setIsLoading false.

(** The [try] body from its start to the first [await]. *)
Definition try_body_start (imageFile : File) : M Progress :=
  invoke (CallFileToBase64 imageFile);;
  mret (Suspend (AwaitFileToBase64 imageFile)).

(** The [try] body from the [await] of task [t], settled as [o], on. *)
Definition try_body_resume (t : Task) (o : Outcome) : M Progress :=
  match t with
  | AwaitFileToBase64 imageFile =>
      base64Image ← awaited o;
      let mimeType := file_type imageFile in
      invoke (CallExtractTextFromImage base64Image mimeType);;
      mret (Suspend (AwaitExtractTextFromImage imageFile))
  | AwaitExtractTextFromImage imageFile =>
      result ← awaited o;
      setExtractedText result;;
      mret Finish
  end.

Definition handleExtractText : M Progress :=
  s ← getApp;
  match imageFile s with
  | None =>
      setError (Some MSG_NO_IMAGE);;
      mret Finish
  | Some imageFile =>
      setIsLoading true;;
      setError None;;
      setExtractedText [];;
      try_catch_finally (try_body_start imageFile) catch_block finally_block
  end.

Definition resumeExtractText (t : Task) (o : Outcome) : M Progress :=
  try_catch_finally (try_body_resume t o) catch_block finally_block.

(** *** The event loop *)

Inductive Event : Type :=
  | SelectImage (file : File)
  | ClickExtract
  | Settle (id : nat) (o : Outcome).

Definition setInflight (m : gmap nat Task) (n : nat) (w : World) : World :=
  mkWorld (app w) m n (next_url w) (calls w) (console w) (unhandled w).

Definition reportUnhandled (e : JsError) (w : World) : World :=
  mkWorld (app w) (inflight w) (next_task w) (next_url w) (calls w) (console w)
    (unhandled w ++ [e]).

(** Park or retire the handler run [r] of task [id]. *)
Definition settleRun (id : nat) (r : Res Progress * World) : World :=
  match r with
  | (Ok (Suspend t), w) => setInflight (<[id := t]> (inflight w)) (next_task w) w
  | (Ok Finish, w) => w
  | (Throw e, w) => reportUnhandled e w
  end.

(** The extract button is rendered when [imageUrl] is set (an object URL
    is never the empty string), and is disabled while [isLoading]. *)
Definition buttonRendered (s : AppState) : bool := bool_decide (is_Some (imageUrl s)).
Definition buttonDisabled (s : AppState) : bool := isLoading s.
Definition buttonClickable (s : AppState) : bool :=
  buttonRendered s && negb (buttonDisabled s).

Definition dispatch (ev : Event) (w : World) : World :=
  match ev with
  | SelectImage file => snd (handleImageSelect file w)
  | ClickExtract =>
      if buttonClickable (app w)
      then settleRun (next_task w)
             (handleExtractText (setInflight (inflight w) (S (next_task w)) w))
      else w
  | Settle id o =>
      match inflight w !! id with
      | None => w
      | Some t =>
          settleRun id
            (resumeExtractText t o (setInflight (delete id (inflight w)) (next_task w) w))
      end
  end.

Definition run (evs : list Event) (w : World) : World :=
  foldl (λ w ev, dispatch ev w) w evs.

Definition initialApp : AppState := mkApp None None [] false None.

Definition initialWorld : World := mkWorld initialApp ∅ 0%nat 0%nat [] [] [].

(** *** What [ResultDisplay] shows *)

Inductive Body : Type :=
  | Hidden
  | Placeholder
  | Transcript (rows : list Row).

Record Screen : Type := mkScreen {
  overlay : bool;
  banner : option jsstring;
  body : Body
}.

Definition errorShown (s : AppState) : option jsstring :=
  match error s with
  | Some m => if truthy m then Some m else None
  | None => None
  end.

Definition display (s : AppState) : Screen :=
  mkScreen (isLoading s) (errorShown s)
    (if negb (isLoading s) && negb (bool_decide (is_Some (errorShown s)))
     then if truthy (extractedText s)
          then Transcript (renderText (extractedText s))
          else Placeholder
     else Hidden).

(** Whether [ResultDisplay] calls [renderText] and shows its rows. *)
Definition showsTranscript (s : AppState) : bool :=
  match body (display s) with
  | Transcript _ => true
  | _ => false
  end.

(** The invariant of the event loop: no rejection went unhandled; while
    [isLoading], exactly one [handleExtractText] is suspended and the text
    and error slots are clear; otherwise none is. *)
Definition consistent (w : World) : Prop :=
  unhandled w = []
  ∧ if isLoading (app w)
    then extractedText (app w) = [] ∧ error (app w) = None
         ∧ ∃ id t, inflight w = {[id := t]}
    else inflight w = ∅.

(** The settlements that carry task [t] to its end when every promise it
    awaits is fulfilled: the encoder's with [base64], the service's with
    [result]. *)
Definition fulfilments (id : nat) (t : Task) (base64 result : jsstring) : list Event :=
  match t with
  | AwaitFileToBase64 _ => [Settle id (Fulfilled base64); Settle id (Fulfilled result)]
  | AwaitExtractTextFromImage _ => [Settle id (Fulfilled result)]
  end.

(** The worlds the application can be in: those some sequence of events
    leads to from the start. *)
Definition reachable (w : World) : Prop := ∃ evs, w = run evs initialWorld.

(** Two pages and a session in which the second is selected while the
    extraction of the first is pending. *)
Definition pageA : File := mkFile (of_ascii "a.png") (of_ascii "image/png") [0x89; 0x50; 0x4E; 0x47].
Definition pageB : File := mkFile (of_ascii "b.webp") (of_ascii "image/webp") [0x52; 0x49; 0x46; 0x46].

Definition selectDuringExtraction : list Event :=
  [SelectImage pageA; ClickExtract; SelectImage pageB].

(** ** More of [ResultDisplay] and [Legend] *)

(** The React key of a row. *)
Definition rowKey (r : Row) : nat :=
  match r with
  | MarkedRow key _ _ => key
  | PlainRow key _ => key
  end.

Definition shiftKey (n : nat) (r : Row) : Row :=
  match r with
  | MarkedRow key marker text => MarkedRow (n + key) marker text
  | PlainRow key line => PlainRow (n + key) line
  end.

(** The text of a row as the browser shows it: the marker span, then the
    text span; for an unmarked row, the line. *)
Definition textContent (r : Row) : jsstring :=
  match r with
  | MarkedRow _ marker text => char marker ++ text
  | PlainRow _ line => line
  end.

(** Carriage return, which [split] leaves at the end of a line of a CRLF
    transcript. *)
Definition CR : N := 0xD.

(** One cell of the [Legend] grid: its key and the two spans. *)
Record LegendEntry : Type := mkEntry {
  entry_key : jsstring;
  entry_class : jsstring;
  entry_char : jsstring;
  entry_description : jsstring
}.

(** [LEGEND_ITEMS.map(item => <div key={item.char}> ... </div>)] *)
Definition Legend : list LegendEntry :=
  (λ item, mkEntry (char item)
             (of_ascii "font-mono font-bold text-lg " ++ color item)
             (char item) (description item)) <$> LEGEND_ITEMS.

(** ** More invariants of the event loop *)

(** Every call of the extraction service comes right after a call of the
    encoder, and carries the declared type of the file encoded. *)
Definition callsPaired (l : list Call) : Prop :=
  ∀ i b m, l !! i = Some (CallExtractTextFromImage b m) →
    ∃ j f, i = S j ∧ l !! j = Some (CallFileToBase64 f) ∧ m = file_type f.

Definition coherent (w : World) : Prop :=
  consistent w
  ∧ (is_Some (imageFile (app w)) ↔ is_Some (imageUrl (app w)))
  ∧ (error (app w) = None ∨ error (app w) = Some MSG_EXTRACT_FAILED)
  ∧ callsPaired (calls w)
  ∧ (∀ id f, inflight w !! id = Some (AwaitFileToBase64 f) →
       last (calls w) = Some (CallFileToBase64 f)).

(** The files selected along a sequence of events, oldest first. *)
Definition selectedFiles (evs : list Event) : list File :=
  omap (λ ev, match ev with SelectImage file => Some file | _ => None end) evs.

(** Where what the world holds came from in the events so far. *)
Definition provenance (evs : list Event) (w : World) : Prop :=
  (∀ f, imageFile (app w) = Some f → SelectImage f ∈ evs)
  ∧ (∀ id f, inflight w !! id = Some (AwaitFileToBase64 f) → SelectImage f ∈ evs)
  ∧ (∀ f, CallFileToBase64 f ∈ calls w → SelectImage f ∈ evs)
  ∧ (∀ b m, CallExtractTextFromImage b m ∈ calls w → ∃ id, Settle id (Fulfilled b) ∈ evs)
  ∧ (∀ e, e ∈ console w → ∃ id, Settle id (Rejected e) ∈ evs)
  ∧ (extractedText (app w) = []
     ∨ ∃ id, Settle id (Fulfilled (extractedText (app w))) ∈ evs).

(** How many of the three parts of the result panel are on screen: the
    loading overlay, the error line, the body (transcript or placeholder). *)
Definition visible (b : Body) : bool :=
  match b with
  | Hidden => false
  | _ => true
  end.

Definition panels (sc : Screen) : nat :=
  (Nat.b2n (overlay sc) + Nat.b2n (bool_decide (is_Some (banner sc)))
   + Nat.b2n (visible (body sc)))%nat.

(** ** The [Uploader] component *)

(** A change or drag event: the file list it carries ([null] or a list)
    and the two flags its methods set. *)
Record FileEvent : Type := mkFileEvent {
  files : option (list File);
  defaultPrevented : bool;
  propagationStopped : bool
}.

Definition preventDefault (e : FileEvent) : FileEvent :=
  mkFileEvent (files e) true (propagationStopped e).

Definition stopPropagation (e : FileEvent) : FileEvent :=
  mkFileEvent (files e) (defaultPrevented e) true.

Section Uploader.

Variable onImageSelect : File → M unit.

(** The statement both handlers share:
    [if (files && files[0]) onImageSelect(files[0])] *)
Definition selectFirst (e : FileEvent) : M unit :=
  match files e with
  | Some fs =>
      match fs !! 0%nat with
      | Some file => onImageSelect file
      | None => mret ()
      end
  | None => mret ()
  end.

Definition handleFileChange (e : FileEvent) : M FileEvent :=
  selectFirst e;;
  mret e.

Definition handleDrop (e : FileEvent) : M FileEvent :=
  let e1 := preventDefault e in
  let e2 := stopPropagation e1 in
  selectFirst e2;;
  mret e2.

Definition handleDragOver (e : FileEvent) : M FileEvent :=
  let e1 := preventDefault e in
  let e2 := stopPropagation e1 in
  mret e2.

End Uploader.

(** ** The page: [App] with the local state of [ResultDisplay] *)

(** [copied] is the state slot of [ResultDisplay]; the clipboard is seen
    through the strings written to it; [timers] are the pending
    [setTimeout] callbacks, each with its delay. All of them reset
    [copied] and have the same delay, so they fire oldest first. *)
Record Page : Type := mkPage {
  world : World;
  copied : bool;
  clipboardWrites : list jsstring;
  timers : list N
}.

Definition handleCopy (p : Page) : Page :=
  mkPage (world p) true
    (clipboardWrites p ++ [extractedText (app (world p))])
    (timers p ++ [2000]).

Inductive UiEvent : Type :=
  | PickFiles (e : FileEvent)
  | DropFiles (e : FileEvent)
  | DragOver (e : FileEvent)
  | ClickExtractButton
  | PromiseSettles (id : nat) (o : Outcome)
  | ClickCopy
  | TimerFires.

Definition withWorld (w : World) (p : Page) : Page :=
  mkPage w (copied p) (clipboardWrites p) (timers p).

(** The copy button is rendered with the transcript. *)
Definition pageDispatch (ev : UiEvent) (p : Page) : Page :=
  match ev with
  | PickFiles e => withWorld (snd (handleFileChange handleImageSelect e (world p))) p
  | DropFiles e => withWorld (snd (handleDrop handleImageSelect e (world p))) p
  | DragOver e => withWorld (snd (handleDragOver e (world p))) p
  | ClickExtractButton => withWorld (dispatch ClickExtract (world p)) p
  | PromiseSettles id o => withWorld (dispatch (Settle id o) (world p)) p
  | ClickCopy => if showsTranscript (app (world p)) then handleCopy p else p
  | TimerFires =>
      match timers p with
      | [] => p
      | _ :: rest => mkPage (world p) false (clipboardWrites p) rest
      end
  end.

Definition pageRun (evs : list UiEvent) (p : Page) : Page :=
  foldl (λ p ev, pageDispatch ev p) p evs.

Definition initialPage : Page := mkPage initialWorld false [] [].

(** The first file of an event's list, if it has one. *)
Definition firstFile (e : FileEvent) : option File :=
  fs ← files e; fs !! 0%nat.

(** What a page event is to [App]. *)
Definition appEvents (ev : UiEvent) : list Event :=
  match ev with
  | PickFiles e | DropFiles e =>
      match firstFile e with
      | Some file => [SelectImage file]
      | None => []
      end
  | ClickExtractButton => [ClickExtract]
  | PromiseSettles id o => [Settle id o]
  | DragOver _ | ClickCopy | TimerFires => []
  end.

(** * Properties *)

Example renderText_scenario :
  cl_marker <$> parse (of_ascii "#Hi
$thinking...
&Long ago...
plain")
  = [Some (of_ascii "#"); Some (of_ascii "$"); Some (of_ascii "&"); None].
Proof. vm_compute. reflexivity. Qed.

Example renderText_trims :
  parse (of_ascii "#Hello there  ")
  = [mkLine (Some (of_ascii "#")) (description <$> head LEGEND_ITEMS) (of_ascii "Hello there")].
Proof. vm_compute. reflexivity. Qed.

(** ** Strings *)

Section StringFacts.

Implicit Types (s t p : jsstring) (c sep : N).

Lemma of_ascii_cons a r : of_ascii (String a r) = N_of_ascii a :: of_ascii r.
Proof. reflexivity. Qed.

Lemma startsWith_single s c :
  startsWith s [c] = true ↔ head s = Some c.
Proof.
  destruct s as [|a s']; simpl; [split; discriminate|].
  rewrite andb_true_r, N.eqb_eq. split; congruence.
Qed.

Lemma startsWith_prefix s p : startsWith s p = true ↔ ∃ r, s = p ++ r.
Proof.
  revert s. induction p as [|b p IH]; intros s; simpl.
  - split; eauto.
  - destruct s as [|a s']; simpl.
    + split; [discriminate | intros [r Hr]; discriminate].
    + rewrite andb_true_iff, N.eqb_eq, IH. split.
      * intros [-> [r ->]]. eauto.
      * intros [r Hr]. injection Hr as -> ->. eauto.
Qed.

Lemma split_nonempty sep s : split sep s ≠ [].
Proof.
  destruct s as [|c s']; simpl; [discriminate|].
  destruct (c =? sep); [discriminate|]. destruct (split sep s'); discriminate.
Qed.

Lemma length_split sep s : length (split sep s) = S (occurrences sep s).
Proof.
  unfold occurrences. induction s as [|c s' IH]; [reflexivity|].
  cbn [split]. destruct (N.eqb_spec c sep) as [->|Hne].
  - rewrite filter_cons_True by reflexivity. cbn [length]. congruence.
  - rewrite filter_cons_False by assumption.
    pose proof (split_nonempty sep s') as Hnil.
    destruct (split sep s'); [contradiction | exact IH].
Qed.

Lemma join_split sep s : join sep (split sep s) = s.
Proof.
  induction s as [|c s' IH]; simpl; [reflexivity|].
  pose proof (split_nonempty sep s') as Hnil.
  destruct (N.eqb_spec c sep) as [->|Hne].
  - simpl. destruct (split sep s'); [contradiction|]. simpl in *. congruence.
  - destruct (split sep s') as [|seg segs]; [contradiction|].
    destruct segs; simpl in *; congruence.
Qed.

Lemma split_segments sep s : Forall (λ seg, sep ∉ seg) (split sep s).
Proof.
  induction s as [|c s' IH]; simpl.
  - repeat constructor. apply not_elem_of_nil.
  - destruct (N.eqb_spec c sep) as [->|Hne].
    + constructor; [apply not_elem_of_nil | exact IH].
    + destruct (split sep s') as [|seg segs]; inversion IH; subst.
      * repeat constructor. rewrite list_elem_of_singleton. congruence.
      * constructor; [|assumption]. rewrite elem_of_cons. intros [?|?]; congruence.
Qed.

Lemma trimStart_spec s :
  ∃ pre, s = pre ++ trimStart s ∧ Forall blank pre ∧ solid (head (trimStart s)).
Proof.
  induction s as [|c s' (pre & Heq & Hpre & Hhd)]; simpl.
  - exists []. repeat split; [constructor | intros c; discriminate].
  - destruct (isWhiteSpace c) eqn:Hc.
    + exists (c :: pre). split; [simpl; congruence|]. split; [|exact Hhd].
      constructor; assumption.
    + exists []. repeat split; [constructor|]. intros c' [= <-]. exact Hc.
Qed.

Lemma trimEnd_spec s :
  ∃ post, s = trimEnd s ++ post ∧ Forall blank post ∧ solid (last (trimEnd s)).
Proof.
  unfold trimEnd. destruct (trimStart_spec (reverse s)) as (pre & Heq & Hpre & Hhd).
  exists (reverse pre). split; [|split].
  - rewrite <- reverse_app, <- Heq. symmetry. apply reverse_involutive.
  - rewrite Forall_forall in *. intros c Hc. apply Hpre.
    by apply elem_of_reverse.
  - by rewrite last_reverse.
Qed.

Lemma trim_spec s : Trimmed s (trim s).
Proof.
  unfold trim. destruct (trimStart_spec s) as (pre & Heq & Hpre & Hhd).
  destruct (trimEnd_spec (trimStart s)) as (post & Heq' & Hpost & Hlast).
  exists pre, post. repeat split; try assumption.
  - rewrite <- Heq'. exact Heq.
  - intros c Hc. apply Hhd. rewrite Heq'.
    destruct (trimEnd (trimStart s)); [discriminate | exact Hc].
Qed.

Lemma trim_nil : trim [] = [].
Proof. reflexivity. Qed.

End StringFacts.

(** ** The renderer *)

Section MarkerScan.

Implicit Types (legend : list LegendItem) (line : jsstring) (item : LegendItem).

Lemma findMarker_Some legend line item :
  findMarker legend line = Some item →
  item ∈ legend ∧ startsWith line (char item) = true.
Proof.
  unfold findMarker. intros H. apply find_some in H as [Hin Hst].
  split; [by apply list_elem_of_In | exact Hst].
Qed.

Lemma findMarker_None legend line :
  findMarker legend line = None ↔
  ∀ item, item ∈ legend → startsWith line (char item) = false.
Proof.
  unfold findMarker. split.
  - intros H item Hin. apply (find_none _ _ H). by apply list_elem_of_In.
  - induction legend as [|it l IH]; intros H; simpl; [reflexivity|].
    rewrite (H it) by apply list_elem_of_here.
    apply IH. intros item Hin. apply H. by apply list_elem_of_further.
Qed.

Lemma single_match legend line item :
  singleChars legend → item ∈ legend →
  startsWith line (char item) = true → ∃ c, char item = [c] ∧ head line = Some c.
Proof.
  intros Hs Hin Hst. unfold singleChars in Hs. rewrite Forall_forall in Hs.
  specialize (Hs item Hin). destruct (char item) as [|c [|]]; try discriminate.
  exists c. split; [reflexivity | by apply startsWith_single].
Qed.

Lemma distinct_inj legend item1 item2 :
  distinctChars legend → item1 ∈ legend → item2 ∈ legend →
  char item1 = char item2 → item1 = item2.
Proof.
  unfold distinctChars. induction legend as [|it l IH]; intros Hnd H1 H2 Heq.
  - by apply elem_of_nil in H1.
  - rewrite fmap_cons in Hnd. apply NoDup_cons in Hnd as [Hnotin Hnd].
    apply elem_of_cons in H1 as [->|H1]; apply elem_of_cons in H2 as [->|H2].
    + reflexivity.
    + exfalso. apply Hnotin. rewrite Heq. by apply list_elem_of_fmap_2.
    + exfalso. apply Hnotin. rewrite <- Heq. by apply list_elem_of_fmap_2.
    + by apply IH.
Qed.

Lemma at_most_one_match legend line item1 item2 :
  singleChars legend → distinctChars legend →
  item1 ∈ legend → item2 ∈ legend →
  startsWith line (char item1) = true → startsWith line (char item2) = true →
  item1 = item2.
Proof.
  intros Hs Hd H1 H2 Hst1 Hst2.
  destruct (single_match _ _ _ Hs H1 Hst1) as (c1 & Hc1 & Hh1).
  destruct (single_match _ _ _ Hs H2 Hst2) as (c2 & Hc2 & Hh2).
  apply (distinct_inj legend); try assumption. congruence.
Qed.

Lemma findMarker_match legend line item :
  singleChars legend → distinctChars legend →
  item ∈ legend → startsWith line (char item) = true →
  findMarker legend line = Some item.
Proof.
  intros Hs Hd Hin Hst. destruct (findMarker legend line) as [item'|] eqn:Hf.
  - apply findMarker_Some in Hf as [Hin' Hst']. f_equal.
    by apply (at_most_one_match legend line).
  - rewrite findMarker_None in Hf. rewrite (Hf item Hin) in Hst. discriminate.
Qed.

Lemma findMarker_lookup legend line :
  singleChars legend → findMarker legend line = lookupMarker legend line.
Proof.
  unfold singleChars, findMarker, lookupMarker, markerTable.
  induction 1 as [|item l Hlen Hl IH]; simpl.
  - destruct line; [reflexivity | by rewrite lookup_empty].
  - destruct (char item) as [|k [|]] eqn:Hk; try discriminate.
    destruct line as [|c r]; simpl; [exact IH|].
    rewrite andb_true_r. destruct (N.eqb_spec c k) as [->|Hne].
    + by rewrite lookup_insert_eq.
    + rewrite lookup_insert_ne by congruence. exact IH.
Qed.

Lemma findMarker_perm legend legend' line :
  singleChars legend → distinctChars legend → legend' ≡ₚ legend →
  findMarker legend' line = findMarker legend line.
Proof.
  intros Hs Hd Hp. destruct (findMarker legend' line) as [item|] eqn:Hf.
  - apply findMarker_Some in Hf as [Hin Hst]. symmetry.
    apply findMarker_match; try assumption. by rewrite <- Hp.
  - symmetry. rewrite findMarker_None in Hf |- *.
    intros item Hin. apply Hf. by rewrite Hp.
Qed.

Lemma classified_renderLine legend index line :
  classified (renderLine legend index line) = classified (renderLine legend 0 line).
Proof. unfold renderLine. by destruct (findMarker legend line). Qed.

Lemma LEGEND_ITEMS_single : singleChars LEGEND_ITEMS.
Proof. unfold singleChars, LEGEND_ITEMS. repeat constructor. Qed.

Lemma LEGEND_ITEMS_distinct : distinctChars LEGEND_ITEMS.
Proof. unfold distinctChars. apply (bool_decide_unpack _). vm_compute. reflexivity. Qed.

End MarkerScan.

(** Membership in a literal list of code units, by evaluation. *)
Ltac by_evaluation := apply (bool_decide_unpack _); vm_compute; reflexivity.

(** C1 (as stated, refuted): it is not true that every line whose first
    character is none of the six markers [#$&()/] is classified as unmarked:
    ["_Random sfx"] starts with none of them and is matched by the legend's
    ['_'] entry. *)
Lemma C1_underscore_is_matched :
  ¬ (∀ line : jsstring,
       (∀ c, head line = Some c → c ∉ SIX_MARKERS) →
       classifyLine line = mkLine None None line).
Proof.
  intros H. specialize (H (of_ascii "_Random sfx")).
  assert (Hhd : ∀ c, head (of_ascii "_Random sfx") = Some c → c ∉ SIX_MARKERS).
  { intros c [= <-]. by_evaluation. }
  specialize (H Hhd). vm_compute in H. discriminate H.
Qed.

(** C1 (amended): a line that is empty, or whose first character is none of
    the seven markers of the legend [#$&()/_], is rendered unmarked with the
    original line untrimmed; a line beginning with ['_'] is matched by the
    legend's last entry, and its text is the rest of the line, trimmed. *)
Theorem C1_unmarked_lines (index : nat) (line : jsstring) :
  (∀ c, head line = Some c → c ∉ of_ascii "#$&()/_") →
  renderLine LEGEND_ITEMS index line = PlainRow index line
  ∧ classifyLine line = mkLine None None line
  ∧ ∀ rest, ∃ marker,
      LEGEND_ITEMS !! 6%nat = Some marker ∧ char marker = of_ascii "_"
      ∧ renderLine LEGEND_ITEMS index (of_ascii "_" ++ rest)
        = MarkedRow index marker (trim rest).
Proof.
  intros Hhd.
  assert (Hnone : findMarker LEGEND_ITEMS line = None).
  { apply findMarker_None. intros item Hin.
    destruct (startsWith line (char item)) eqn:Hst; [exfalso | reflexivity].
    destruct (single_match _ _ _ LEGEND_ITEMS_single Hin Hst) as (c & Hc & Hh).
    apply (Hhd c Hh).
    unfold LEGEND_ITEMS in Hin. rewrite !elem_of_cons in Hin.
    destruct_or!; try (by apply elem_of_nil in Hin); subst item;
      injection Hc as <-; by_evaluation. }
  unfold classifyLine, renderLine. rewrite Hnone. repeat split.
  intros rest. eexists. split; [reflexivity|]. split; reflexivity.
Qed.

Lemma C1_unmarked_lines_witness :
  renderLine LEGEND_ITEMS 3 (of_ascii "  plain text ") = PlainRow 3 (of_ascii "  plain text ").
Proof.
  apply (C1_unmarked_lines 3 (of_ascii "  plain text ")).
  intros c [= <-]. apply (bool_decide_unpack _). vm_compute. reflexivity.
Defined.

(** C3 (as stated, refuted): parsing the empty transcript does not yield
    the empty sequence. *)
Lemma C3_empty_transcript_has_a_row : parse [] ≠ [].
Proof. vm_compute. discriminate. Qed.

(** C3 (amended): splitting the empty transcript gives one empty segment,
    so parsing it yields exactly one line, unmarked and with empty text;
    [ResultDisplay] does not call the renderer on an empty transcript. *)
Theorem C3_empty_transcript :
  split LF [] = [[]]
  ∧ renderText [] = [PlainRow 0 []]
  ∧ parse [] = [mkLine None None []]
  ∧ ∀ file url loading err, showsTranscript (mkApp file url [] loading err) = false.
Proof.
  repeat split. intros file url loading err. unfold showsTranscript, display. simpl.
  by destruct (negb loading && _).
Qed.

(** C4: the renderer splits the text on ['\n'] and yields exactly one row
    per segment, in the order of the segments; the segments are the pieces
    between the line feeds (one more than there are line feeds, free of
    line feeds, joining back to the text); an empty segment gives an
    unmarked line with empty text. *)
Theorem C4_one_row_per_segment (text : jsstring) :
  length (parse text) = length (split LF text)
  ∧ length (split LF text) = S (occurrences LF text)
  ∧ join LF (split LF text) = text
  ∧ Forall (λ seg, LF ∉ seg) (split LF text)
  ∧ (∀ i, renderText text !! i = renderLine LEGEND_ITEMS i <$> split LF text !! i)
  ∧ (∀ i, parse text !! i = classifyLine <$> split LF text !! i)
  ∧ classifyLine [] = mkLine None None [].
Proof.
  unfold parse, renderText, renderTextOver.
  split; [by rewrite length_fmap, length_imap|].
  split; [apply length_split|].
  split; [apply join_split|].
  split; [apply split_segments|].
  split; [intros i; apply list_lookup_imap|].
  split; [|reflexivity].
  intros i. rewrite list_lookup_fmap, list_lookup_imap.
  destruct (split LF text !! i) as [line|]; [simpl | reflexivity].
  f_equal. apply classified_renderLine.
Qed.

(** C5: for a line whose first character is a marker of the legend, the
    row carries that legend entry and its text is the line without its
    first character, with leading and trailing whitespace trimmed; a line
    that is only a marker has empty text. *)
Theorem C5_marked_text (index : nat) (c : N) (rest : jsstring) :
  [c] ∈ char <$> LEGEND_ITEMS →
  ∃ marker,
    marker ∈ LEGEND_ITEMS ∧ char marker = [c]
    ∧ renderLine LEGEND_ITEMS index (c :: rest)
      = MarkedRow index marker (trim (substring 1 (c :: rest)))
    ∧ substring 1 (c :: rest) = rest
    ∧ Trimmed rest (trim rest)
    ∧ renderLine LEGEND_ITEMS index [c] = MarkedRow index marker [].
Proof.
  intros Hc. apply list_elem_of_fmap in Hc as (marker & Hchar & Hin).
  exists marker. split; [exact Hin|]. split; [done|].
  assert (Hfind : ∀ r, findMarker LEGEND_ITEMS (c :: r) = Some marker).
  { intros r. apply findMarker_match;
      [apply LEGEND_ITEMS_single | apply LEGEND_ITEMS_distinct | exact Hin |].
    rewrite <- Hchar. apply startsWith_single. reflexivity. }
  unfold renderLine. rewrite !Hfind. repeat split. apply trim_spec.
Qed.

Lemma C5_marked_text_witness :
  ∃ marker,
    marker ∈ LEGEND_ITEMS ∧ char marker = of_ascii "#"
    ∧ renderLine LEGEND_ITEMS 0 (of_ascii "#Hello there  ")
      = MarkedRow 0 marker (trim (substring 1 (of_ascii "#Hello there  ")))
    ∧ substring 1 (of_ascii "#Hello there  ") = of_ascii "Hello there  "
    ∧ Trimmed (of_ascii "Hello there  ") (trim (of_ascii "Hello there  "))
    ∧ renderLine LEGEND_ITEMS 0 (of_ascii "#") = MarkedRow 0 marker [].
Proof.
  apply (C5_marked_text 0 35 (of_ascii "Hello there  ")).
  apply (bool_decide_unpack _). vm_compute. reflexivity.
Defined.

(** C8: over a legend whose markers are single characters, pairwise
    distinct, the ordered scan [find (startsWith)] is the exact
    first-character lookup in the legend read as a table; at most one
    entry matches a line; and the result, hence the rendered line, is the
    same for every reordering of the legend. *)
Theorem C8_scan_is_lookup (legend : list LegendItem) (line : jsstring) :
  singleChars legend → distinctChars legend →
  findMarker legend line = lookupMarker legend line
  ∧ (∀ item1 item2, item1 ∈ legend → item2 ∈ legend →
       startsWith line (char item1) = true → startsWith line (char item2) = true →
       item1 = item2)
  ∧ (∀ legend' index, legend' ≡ₚ legend →
       findMarker legend' line = findMarker legend line
       ∧ renderLine legend' index line = renderLine legend index line).
Proof.
  intros Hs Hd. split; [by apply findMarker_lookup|]. split.
  - intros item1 item2. by apply at_most_one_match.
  - intros legend' index Hp.
    assert (Hf := findMarker_perm legend legend' line Hs Hd Hp).
    split; [exact Hf|]. unfold renderLine. by rewrite Hf.
Qed.

Lemma C8_scan_is_lookup_witness :
  findMarker LEGEND_ITEMS (of_ascii ")AAAH") = lookupMarker LEGEND_ITEMS (of_ascii ")AAAH")
  ∧ (∀ item1 item2, item1 ∈ LEGEND_ITEMS → item2 ∈ LEGEND_ITEMS →
       startsWith (of_ascii ")AAAH") (char item1) = true →
       startsWith (of_ascii ")AAAH") (char item2) = true →
       item1 = item2)
  ∧ (∀ legend' index, legend' ≡ₚ LEGEND_ITEMS →
       findMarker legend' (of_ascii ")AAAH") = findMarker LEGEND_ITEMS (of_ascii ")AAAH")
       ∧ renderLine legend' index (of_ascii ")AAAH")
         = renderLine LEGEND_ITEMS index (of_ascii ")AAAH")).
Proof.
  apply (C8_scan_is_lookup LEGEND_ITEMS (of_ascii ")AAAH")).
  - unfold singleChars, LEGEND_ITEMS. repeat constructor.
  - unfold distinctChars. apply (bool_decide_unpack _). vm_compute. reflexivity.
Defined.

(** ** The event loop *)

(** Run the handler code in the goal: unfold the handlers and the monad,
    leaving the world's fields. *)
Ltac run_handlers :=
  cbv [dispatch settleRun setInflight reportUnhandled
       buttonClickable buttonRendered buttonDisabled
       handleExtractText resumeExtractText handleImageSelect
       try_catch_finally try_body_start try_body_resume catch_block finally_block
       setImageFile setImageUrl setExtractedText setIsLoading setError
       modifyApp getApp createObjectURL invoke console_error awaited
       mbind mret M_bind M_ret];
  cbn [app inflight next_task next_url calls console unhandled
       imageFile imageUrl extractedText isLoading error fst snd].

Section EventLoop.

Implicit Types (w : World) (ev : Event) (evs : list Event) (t : Task).

Lemma run_snoc evs ev w : run (evs ++ [ev]) w = dispatch ev (run evs w).
Proof. unfold run. by rewrite foldl_app. Qed.

Lemma consistent_initial : consistent initialWorld.
Proof. by split. Qed.

(** A resumed handler never throws: its whole body is inside [try]. *)
Lemma resumeExtractText_caught t o w :
  ∃ p, fst (resumeExtractText t o w) = Ok p.
Proof. destruct t, o; run_handlers; eauto. Qed.

Lemma handleExtractText_caught w : ∃ p, fst (handleExtractText w) = Ok p.
Proof. run_handlers. destruct (imageFile (app w)); run_handlers; eauto. Qed.

Lemma dispatch_consistent ev w : consistent w → consistent (dispatch ev w).
Proof.
  destruct w as [[file url text loading err] pending nt nu cs con un].
  unfold consistent. simpl. intros [-> Hinv].
  destruct ev as [f| |id o]; run_handlers.
  - split; [reflexivity|]. destruct loading; [|exact Hinv].
    destruct Hinv as (_ & _ & Hp). done.
  - destruct (bool_decide (is_Some url)), loading; simpl; try done.
    subst pending. destruct file as [f|]; run_handlers; [|done].
    split; [reflexivity|]. repeat split. exists nt, (AwaitFileToBase64 f).
    apply insert_empty.
  - destruct (pending !! id) as [t|] eqn:Hl; simpl; [|done].
    destruct loading; [|subst pending; by rewrite lookup_empty in Hl].
    destruct Hinv as (-> & -> & id' & t' & ->).
    apply lookup_singleton_Some in Hl as [-> ->].
    rewrite delete_singleton_eq.
    destruct t, o; run_handlers; split; try reflexivity.
    repeat split. eexists _, _. apply insert_empty.
Qed.

Lemma run_consistent evs w : consistent w → consistent (run evs w).
Proof.
  induction evs as [|ev evs IH] using rev_ind; intros Hw; [exact Hw|].
  rewrite run_snoc. by apply dispatch_consistent, IH.
Qed.

Lemma reachable_consistent evs : consistent (run evs initialWorld).
Proof. apply run_consistent, consistent_initial. Qed.

(** A world with a suspended handler is loading, and that handler is the
    only one. *)
Lemma consistent_inflight w id t :
  consistent w → inflight w !! id = Some t →
  isLoading (app w) = true ∧ extractedText (app w) = [] ∧ error (app w) = None
  ∧ inflight w = {[id := t]} ∧ unhandled w = [].
Proof.
  intros [Hun Hinv] Hl. destruct (isLoading (app w)).
  - destruct Hinv as (Ht & He & id' & t' & Hp). rewrite Hp in Hl.
    apply lookup_singleton_Some in Hl as [-> ->]. done.
  - rewrite Hinv, lookup_empty in Hl. discriminate.
Qed.

End EventLoop.

(** ** The extraction lifecycle *)

(** C2 (as stated, refuted): page A is selected and its extraction
    triggered, then page B is selected while the request is pending. The
    application is still loading after the selection, and when the request
    of A settles its outcome is applied: the transcript of A is shown while
    B is the selected image, and a failure of A shows the error message. *)
Lemma C2_stale_response_rendered :
  isLoading (app (run selectDuringExtraction initialWorld)) = true
  ∧ imageFile (app (run (selectDuringExtraction
        ++ [Settle 0 (Fulfilled (of_ascii "iVBORw==")); Settle 0 (Fulfilled (of_ascii "#text of A"))])
        initialWorld)) = Some pageB
  ∧ display (app (run (selectDuringExtraction
        ++ [Settle 0 (Fulfilled (of_ascii "iVBORw==")); Settle 0 (Fulfilled (of_ascii "#text of A"))])
        initialWorld))
    = mkScreen false None (Transcript (renderText (of_ascii "#text of A")))
  ∧ display (app (run (selectDuringExtraction
        ++ [Settle 0 (Rejected (mkError (of_ascii "unreadable")))])
        initialWorld))
    = mkScreen false (Some MSG_EXTRACT_FAILED) Hidden.
Proof. vm_compute. repeat split. Qed.

(** C2 (amended): selecting a new image while an extraction request is
    pending clears the text and the error and makes the new image the
    selection, but the application stays loading and the request stays in
    flight; when that request settles its outcome is applied to the
    displayed state: fulfilled, its text becomes the extracted text;
    rejected, the static error message is set; either way loading ends and
    no request remains. *)
Theorem C2_pending_request_survives_selection
    (w : World) (id : nat) (t : Task) (file : File)
    (base64 result : jsstring) (reason : JsError) :
  reachable w → inflight w !! id = Some t →
  app (dispatch (SelectImage file) w) = mkApp (Some file) (Some (next_url w)) [] true None
  ∧ inflight (dispatch (SelectImage file) w) = {[id := t]}
  ∧ app (run (fulfilments id t base64 result) (dispatch (SelectImage file) w))
    = mkApp (Some file) (Some (next_url w)) result false None
  ∧ inflight (run (fulfilments id t base64 result) (dispatch (SelectImage file) w)) = ∅
  ∧ app (dispatch (Settle id (Rejected reason)) (dispatch (SelectImage file) w))
    = mkApp (Some file) (Some (next_url w)) [] false (Some MSG_EXTRACT_FAILED)
  ∧ inflight (dispatch (Settle id (Rejected reason)) (dispatch (SelectImage file) w)) = ∅.
Proof.
  intros [evs ->] Hl.
  destruct (consistent_inflight _ _ _ (reachable_consistent evs) Hl)
    as (Hload & _ & _ & Hp & _).
  destruct (run evs initialWorld) as [[f u text loading err] pending nt nu cs con un].
  simpl in *. subst loading pending. clear Hl.
  split; [reflexivity|]. split; [reflexivity|].
  unfold fulfilments, run.
  destruct t; cbn [foldl]; run_handlers;
    rewrite ?lookup_singleton_eq; run_handlers;
    rewrite ?delete_singleton_eq, ?insert_empty, ?lookup_singleton_eq; run_handlers;
    rewrite ?delete_singleton_eq; done.
Qed.

Lemma C2_pending_request_survives_selection_witness :
  app (dispatch (SelectImage pageB) (run [SelectImage pageA; ClickExtract] initialWorld))
  = mkApp (Some pageB) (Some 1%nat) [] true None
  ∧ app (run (fulfilments 0 (AwaitFileToBase64 pageA) (of_ascii "iVBORw==") (of_ascii "#text of A"))
           (dispatch (SelectImage pageB) (run [SelectImage pageA; ClickExtract] initialWorld)))
    = mkApp (Some pageB) (Some 1%nat) (of_ascii "#text of A") false None.
Proof.
  pose proof (C2_pending_request_survives_selection
    (run [SelectImage pageA; ClickExtract] initialWorld) 0 (AwaitFileToBase64 pageA) pageB
    (of_ascii "iVBORw==") (of_ascii "#text of A") (mkError [])) as H.
  destruct H as (H1 & _ & H3 & _).
  - exists [SelectImage pageA; ClickExtract]. reflexivity.
  - vm_compute. reflexivity.
  - split; [exact H1 | exact H3].
Defined.

(** C6: [handleExtractText] with no image selected returns at once: the
    loading flag is not set, no request is started, neither the encoder nor
    the extraction service is called, and the error slot holds the
    validation message, which [ResultDisplay] shows. *)
Theorem C6_no_image_no_request (w : World) :
  imageFile (app w) = None →
  handleExtractText w
  = (Ok Finish,
     mkWorld (mkApp None (imageUrl (app w)) (extractedText (app w))
                (isLoading (app w)) (Some MSG_NO_IMAGE))
       (inflight w) (next_task w) (next_url w) (calls w) (console w) (unhandled w))
  ∧ isLoading (app (snd (handleExtractText w))) = isLoading (app w)
  ∧ inflight (snd (handleExtractText w)) = inflight w
  ∧ calls (snd (handleExtractText w)) = calls w
  ∧ overlay (display (app (snd (handleExtractText w)))) = isLoading (app w)
  ∧ banner (display (app (snd (handleExtractText w)))) = Some MSG_NO_IMAGE.
Proof.
  intros Hnone. destruct w as [[f u text loading err] pending nt nu cs con un].
  simpl in Hnone. subst f. run_handlers. repeat split.
Qed.

Lemma C6_no_image_no_request_witness :
  imageFile (app initialWorld) = None
  ∧ handleExtractText initialWorld
    = (Ok Finish,
       mkWorld (mkApp None None [] false (Some MSG_NO_IMAGE)) ∅ 0%nat 0%nat [] [] [])
  ∧ isLoading (app (snd (handleExtractText initialWorld))) = false
  ∧ calls (snd (handleExtractText initialWorld)) = [].
Proof.
  destruct (C6_no_image_no_request initialWorld) as (H1 & H2 & _ & H4 & _).
  - reflexivity.
  - split; [reflexivity|]. split; [exact H1|]. split; [exact H2 | exact H4].
Defined.

(** C7: when the promise a suspended [handleExtractText] awaits is
    rejected, at the encode step or at the extraction call, the handler
    catches it and ends normally, nothing is left unhandled, loading ends,
    the error slot holds the static message whatever the reason, the
    extracted text is empty and no transcript is shown. *)
Theorem C7_failure_is_caught (w : World) (id : nat) (t : Task) (reason : JsError) :
  reachable w → inflight w !! id = Some t →
  fst (resumeExtractText t (Rejected reason) w) = Ok Finish
  ∧ unhandled (dispatch (Settle id (Rejected reason)) w) = []
  ∧ app (dispatch (Settle id (Rejected reason)) w)
    = mkApp (imageFile (app w)) (imageUrl (app w)) [] false (Some MSG_EXTRACT_FAILED)
  ∧ truthy MSG_EXTRACT_FAILED = true
  ∧ display (app (dispatch (Settle id (Rejected reason)) w))
    = mkScreen false (Some MSG_EXTRACT_FAILED) Hidden
  ∧ inflight (dispatch (Settle id (Rejected reason)) w) = ∅
  ∧ calls (dispatch (Settle id (Rejected reason)) w) = calls w
  ∧ console (dispatch (Settle id (Rejected reason)) w) = console w ++ [reason]
  ∧ ∀ reason', app (dispatch (Settle id (Rejected reason')) w)
               = app (dispatch (Settle id (Rejected reason)) w).
Proof.
  intros [evs ->] Hl.
  destruct (consistent_inflight _ _ _ (reachable_consistent evs) Hl)
    as (Hload & Htext & _ & Hp & Hun).
  destruct (run evs initialWorld) as [[f u text loading err] pending nt nu cs con un].
  simpl in *. subst loading text pending un. clear Hl.
  split; [by destruct t|].
  run_handlers. rewrite lookup_singleton_eq, delete_singleton_eq.
  destruct t; run_handlers; repeat split.
Qed.

Lemma C7_failure_is_caught_witness :
  inflight (run [SelectImage pageA; ClickExtract] initialWorld) !! 0%nat
  = Some (AwaitFileToBase64 pageA)
  ∧ app (dispatch (Settle 0 (Rejected (mkError (of_ascii "unreadable"))))
           (run [SelectImage pageA; ClickExtract] initialWorld))
    = mkApp (Some pageA) (Some 0%nat) [] false (Some MSG_EXTRACT_FAILED)
  ∧ unhandled (dispatch (Settle 0 (Rejected (mkError (of_ascii "unreadable"))))
                 (run [SelectImage pageA; ClickExtract] initialWorld)) = [].
Proof.
  pose proof (C7_failure_is_caught (run [SelectImage pageA; ClickExtract] initialWorld)
    0 (AwaitFileToBase64 pageA) (mkError (of_ascii "unreadable"))) as H.
  destruct H as (_ & H2 & H3 & _).
  - exists [SelectImage pageA; ClickExtract]. reflexivity.
  - vm_compute. reflexivity.
  - split; [vm_compute; reflexivity|]. split; [exact H3 | exact H2].
Defined.

(** C9: from any state, selecting an image makes it the current selection
    with a fresh preview URL, clears the extracted text to empty and the
    error to none, and shows neither an error nor a transcript. *)
Theorem C9_selection_resets_results (w : World) (file : File) :
  fst (handleImageSelect file w) = Ok ()
  ∧ app (dispatch (SelectImage file) w)
    = mkApp (Some file) (Some (next_url w)) [] (isLoading (app w)) None
  ∧ imageFile (app (dispatch (SelectImage file) w)) = Some file
  ∧ extractedText (app (dispatch (SelectImage file) w)) = []
  ∧ error (app (dispatch (SelectImage file) w)) = None
  ∧ banner (display (app (dispatch (SelectImage file) w))) = None
  ∧ showsTranscript (app (dispatch (SelectImage file) w)) = false.
Proof.
  destruct w as [[f u text loading err] pending nt nu cs con un].
  run_handlers. repeat split. unfold showsTranscript, display. simpl.
  by destruct loading.
Qed.

(** C10: in every reachable state at most one extraction request is in
    flight, exactly one while the loading flag is set and none otherwise;
    while the flag is set the trigger is disabled and a click on it changes
    nothing. *)
Theorem C10_single_flight (w : World) :
  reachable w →
  size (inflight w) = (if isLoading (app w) then 1 else 0)%nat
  ∧ (size (inflight w) ≤ 1)%nat
  ∧ buttonDisabled (app w) = isLoading (app w)
  ∧ (isLoading (app w) = true →
     buttonClickable (app w) = false ∧ dispatch ClickExtract w = w).
Proof.
  intros [evs ->]. destruct (reachable_consistent evs) as [_ Hinv].
  destruct (run evs initialWorld) as [[f u text loading err] pending nt nu cs con un].
  simpl in *. destruct loading.
  - destruct Hinv as (_ & _ & id & t & ->). rewrite map_size_singleton.
    repeat split; try lia.
    + unfold buttonClickable. simpl. apply andb_false_r.
    + run_handlers. by rewrite andb_false_r.
  - subst pending. rewrite map_size_empty. repeat split; try lia; discriminate.
Qed.

Lemma C10_single_flight_witness :
  size (inflight (run [SelectImage pageA; ClickExtract] initialWorld)) = 1%nat
  ∧ isLoading (app (run [SelectImage pageA; ClickExtract] initialWorld)) = true
  ∧ dispatch ClickExtract (run [SelectImage pageA; ClickExtract] initialWorld)
    = run [SelectImage pageA; ClickExtract] initialWorld.
Proof.
  destruct (C10_single_flight (run [SelectImage pageA; ClickExtract] initialWorld))
    as (H1 & _ & _ & H4).
  - exists [SelectImage pageA; ClickExtract]. reflexivity.
  - split; [exact H1|]. split; [reflexivity|]. apply H4. reflexivity.
Defined.

(** * Further properties of the code *)

(** ** The renderer on its edges *)

Section RendererEdges.

Implicit Types (s t line rest text : jsstring) (c sep : N).

Lemma split_app_sep sep s t :
  split sep (s ++ sep :: t) = split sep s ++ split sep t.
Proof.
  induction s as [|c s' IH]; simpl.
  - by rewrite N.eqb_refl.
  - rewrite IH. pose proof (split_nonempty sep s') as Hne.
    destruct (c =? sep); [reflexivity|].
    destruct (split sep s'); [contradiction | reflexivity].
Qed.

Lemma renderLine_shift legend n index line :
  renderLine legend (n + index) line = shiftKey n (renderLine legend index line).
Proof. unfold renderLine. by destruct (findMarker legend line). Qed.

Lemma trimStart_solid s : solid (head s) → trimStart s = s.
Proof.
  destruct s as [|c s']; [reflexivity|]. intros Hs. simpl.
  by rewrite (Hs c eq_refl).
Qed.

Lemma trimEnd_solid s : solid (last s) → trimEnd s = s.
Proof.
  intros Hs. unfold trimEnd. rewrite trimStart_solid.
  - apply reverse_involutive.
  - by rewrite head_reverse.
Qed.

Lemma trim_idempotent s : trim (trim s) = trim s.
Proof.
  destruct (trim_spec s) as (pre & post & _ & _ & _ & Hhd & Hlast).
  unfold trim at 1. rewrite (trimStart_solid _ Hhd). by apply trimEnd_solid.
Qed.

Lemma trim_snoc_blank s c : isWhiteSpace c = true → trim (s ++ [c]) = trim s.
Proof.
  intros Hc. unfold trim. induction s as [|a s' IH]; simpl.
  - by rewrite Hc.
  - destruct (isWhiteSpace a); [exact IH|].
    unfold trimEnd. rewrite app_comm_cons, reverse_snoc. simpl.
    by rewrite Hc.
Qed.

(** A line the legend does not match: empty, or starting with no marker. *)
Lemma findMarker_unmarked line :
  (∀ c, head line = Some c → c ∉ of_ascii "#$&()/_") →
  findMarker LEGEND_ITEMS line = None.
Proof.
  intros Hhd. apply findMarker_None. intros item Hin.
  destruct (startsWith line (char item)) eqn:Hst; [exfalso | reflexivity].
  destruct (single_match _ _ _ LEGEND_ITEMS_single Hin Hst) as (c & Hc & Hh).
  apply (Hhd c Hh).
  unfold LEGEND_ITEMS in Hin. rewrite !elem_of_cons in Hin.
  destruct_or!; try (by apply elem_of_nil in Hin); subst item;
    injection Hc as <-; by_evaluation.
Qed.

Lemma findMarker_marked c rest :
  [c] ∈ char <$> LEGEND_ITEMS →
  ∃ marker, marker ∈ LEGEND_ITEMS ∧ char marker = [c]
            ∧ ∀ r, findMarker LEGEND_ITEMS (c :: r) = Some marker.
Proof.
  intros Hc. apply list_elem_of_fmap in Hc as (marker & Hchar & Hin).
  exists marker. split; [exact Hin|]. split; [done|]. intros r.
  apply findMarker_match;
    [apply LEGEND_ITEMS_single | apply LEGEND_ITEMS_distinct | exact Hin |].
  rewrite <- Hchar. by apply startsWith_single.
Qed.

End RendererEdges.

(** X1: rendering composes over line feeds: the rows of [a ++ "\n" ++ b]
    are the rows of [a] followed by the rows of [b] with their keys moved
    past those of [a]; in particular a transcript that ends in a line feed
    gets one more row, unmarked and empty. *)
Theorem X1_rows_of_concatenation (a b : jsstring) :
  renderText (a ++ LF :: b)
  = renderText a ++ (shiftKey (length (renderText a)) <$> renderText b)
  ∧ parse (a ++ LF :: b) = parse a ++ parse b
  ∧ parse (a ++ [LF]) = parse a ++ [mkLine None None []].
Proof.
  assert (H1 : renderText (a ++ LF :: b)
    = renderText a ++ (shiftKey (length (renderText a)) <$> renderText b)).
  { unfold renderText, renderTextOver. rewrite split_app_sep, imap_app, length_imap.
    f_equal. rewrite fmap_imap. apply imap_ext. intros i line _. simpl.
    apply renderLine_shift. }
  assert (H2 : ∀ a b, parse (a ++ LF :: b) = parse a ++ parse b).
  { intros a' b'. unfold parse, renderText, renderTextOver.
    rewrite split_app_sep, imap_app, fmap_app. f_equal.
    rewrite !fmap_imap. apply imap_ext. intros i line _. simpl.
    rewrite (classified_renderLine _ (_ + i)). symmetry. apply classified_renderLine. }
  split; [exact H1|]. split; [apply H2|]. by rewrite H2.
Qed.

(** X2: the keys of the rows are the line numbers [0, 1, ..., n-1] in
    order, so no two rows share a key. *)
Theorem X2_row_keys (text : jsstring) :
  rowKey <$> renderText text = seq 0 (length (split LF text))
  ∧ NoDup (rowKey <$> renderText text).
Proof.
  assert (H : rowKey <$> renderText text = seq 0 (length (split LF text))).
  { unfold renderText, renderTextOver. rewrite fmap_imap.
    rewrite (imap_ext _ (λ i _, i)).
    - rewrite imap_seq_0. apply list_fmap_id.
    - intros i line _. unfold compose, renderLine.
      by destruct (findMarker LEGEND_ITEMS line). }
  split; [exact H|]. rewrite H. apply NoDup_seq.
Qed.

(** X3: what a marked row shows never starts or ends with whitespace
    after its marker, and rendering is idempotent on what it shows:
    rendering the displayed text of a row again gives the same row. *)
Theorem X3_rendering_is_idempotent (index : nat) (line : jsstring) :
  renderLine LEGEND_ITEMS index (textContent (renderLine LEGEND_ITEMS index line))
  = renderLine LEGEND_ITEMS index line
  ∧ ∀ key marker text,
      renderLine LEGEND_ITEMS index line = MarkedRow key marker text →
      solid (head text) ∧ solid (last text).
Proof.
  split; [|unfold renderLine; destruct (findMarker LEGEND_ITEMS line);
           [|discriminate]; intros key marker text [= _ _ <-];
           destruct (trim_spec (substring 1 line)) as (? & ? & _ & _ & _ & ? & ?);
           by split].
  unfold renderLine at 2 3.
  destruct (findMarker LEGEND_ITEMS line) as [marker|] eqn:Hf; cbn [textContent].
  - apply findMarker_Some in Hf as [Hin Hst].
    destruct (single_match _ _ _ LEGEND_ITEMS_single Hin Hst) as (c & Hc & Hh).
    destruct line as [|c' rest]; [discriminate|]. injection Hh as ->.
    rewrite Hc. change (substring 1 (c :: rest)) with rest.
    change ([c] ++ trim rest) with (c :: trim rest). unfold renderLine.
    rewrite (findMarker_match LEGEND_ITEMS (c :: trim rest) marker
               LEGEND_ITEMS_single LEGEND_ITEMS_distinct Hin).
    + change (substring 1 (c :: trim rest)) with (trim rest).
      f_equal. apply trim_idempotent.
    + rewrite Hc. by apply startsWith_single.
  - unfold renderLine. by rewrite Hf.
Qed.

(** X4: a carriage return left at the end of a line by a CRLF transcript
    is trimmed away from a marked line, which is classified as if it were
    not there, and is kept in the text of an unmarked line. *)
Theorem X4_carriage_return (c : N) (rest line : jsstring) :
  [c] ∈ char <$> LEGEND_ITEMS →
  (∀ c', head line = Some c' → c' ∉ of_ascii "#$&()/_") →
  classifyLine (c :: rest ++ [CR]) = classifyLine (c :: rest)
  ∧ classifyLine (line ++ [CR]) = mkLine None None (line ++ [CR]).
Proof.
  intros Hc Hline. split.
  - destruct (findMarker_marked c rest Hc) as (marker & _ & _ & Hf).
    unfold classifyLine, renderLine. rewrite (Hf rest), (Hf (rest ++ [CR])).
    change (substring 1 (c :: rest ++ [CR])) with (rest ++ [CR]).
    change (substring 1 (c :: rest)) with rest.
    unfold classified. f_equal. by apply trim_snoc_blank.
  - unfold classifyLine, renderLine. rewrite findMarker_unmarked; [reflexivity|].
    intros c' Hh. destruct line as [|a l].
    + injection Hh as <-. by_evaluation.
    + apply Hline. exact Hh.
Qed.

Lemma X4_carriage_return_witness :
  classifyLine (of_ascii "#Hi" ++ [CR]) = classifyLine (of_ascii "#Hi")
  ∧ classifyLine (of_ascii "plain" ++ [CR]) = mkLine None None (of_ascii "plain" ++ [CR]).
Proof.
  apply (X4_carriage_return 35 (of_ascii "Hi") (of_ascii "plain")).
  - apply (bool_decide_unpack _). vm_compute. reflexivity.
  - intros c' [= <-]. apply (bool_decide_unpack _). vm_compute. reflexivity.
Defined.

(** X5: the legend grid has one cell per entry of the table, in its
    order, under pairwise distinct keys; and every marker a rendered row
    carries has its cell in the grid, with the same character, description
    and colour. *)
Theorem X5_legend_covers_rows (text : jsstring) :
  length Legend = 7%nat
  ∧ NoDup (entry_key <$> Legend)
  ∧ entry_char <$> Legend = char <$> LEGEND_ITEMS
  ∧ ∀ key marker t, MarkedRow key marker t ∈ renderText text →
      ∃ entry, entry ∈ Legend
        ∧ entry_char entry = char marker
        ∧ entry_description entry = description marker
        ∧ entry_class entry = of_ascii "font-mono font-bold text-lg " ++ color marker.
Proof.
  split; [reflexivity|]. split; [by_evaluation|]. split; [reflexivity|].
  intros key marker t Hin. unfold renderText, renderTextOver in Hin.
  apply list_elem_of_lookup in Hin as [i Hi].
  rewrite list_lookup_imap in Hi.
  destruct (split LF text !! i) as [line|]; [|discriminate].
  simpl in Hi. unfold renderLine in Hi.
  destruct (findMarker LEGEND_ITEMS line) as [m|] eqn:Hf; [|discriminate].
  injection Hi as _ -> _. apply findMarker_Some in Hf as [Hm _].
  exists (mkEntry (char marker) (of_ascii "font-mono font-bold text-lg " ++ color marker)
            (char marker) (description marker)).
  split; [|done]. unfold Legend.
  by apply (list_elem_of_fmap_2
    (λ item, mkEntry (char item) (of_ascii "font-mono font-bold text-lg " ++ color item)
               (char item) (description item))).
Qed.

(** ** The event loop, further *)

Ltac settle_maps :=
  rewrite ?insert_empty, ?lookup_singleton_eq, ?delete_singleton_eq.

Section EventLoopFurther.

Implicit Types (w : World) (ev : Event) (evs : list Event) (l : list Call).

Lemma run_app evs1 evs2 w : run (evs1 ++ evs2) w = run evs2 (run evs1 w).
Proof. unfold run. apply foldl_app. Qed.

Lemma callsPaired_snoc_encode l f :
  callsPaired l → callsPaired (l ++ [CallFileToBase64 f]).
Proof.
  intros Hl i b m Hi. apply lookup_snoc_Some in Hi as [[Hlt Hi]|[_ ?]]; [|discriminate].
  destruct (Hl i b m Hi) as (j & f' & -> & Hj & ->).
  exists j, f'. repeat split. rewrite lookup_app_l; [exact Hj | lia].
Qed.

Lemma callsPaired_snoc_extract l f b :
  callsPaired l → last l = Some (CallFileToBase64 f) →
  callsPaired (l ++ [CallExtractTextFromImage b (file_type f)]).
Proof.
  intros Hl Hlast i b' m' Hi. apply lookup_snoc_Some in Hi as [[Hlt Hi]|[-> Heq]].
  - destruct (Hl i b' m' Hi) as (j & f' & -> & Hj & ->).
    exists j, f'. repeat split. rewrite lookup_app_l; [exact Hj | lia].
  - injection Heq as <- <-. apply last_Some in Hlast as [l' ->].
    exists (length l'), f. rewrite length_app. simpl. split; [lia|].
    split; [|reflexivity]. rewrite <- app_assoc. by apply list_lookup_middle.
Qed.

Lemma coherent_initial : coherent initialWorld.
Proof.
  split; [apply consistent_initial|]. split; [|split; [by left|split]].
  - split; intros [? ?]; discriminate.
  - intros i b m Hi. discriminate.
  - intros id f Hl. simpl in Hl. by rewrite lookup_empty in Hl.
Qed.

Lemma dispatch_coherent ev w : coherent w → coherent (dispatch ev w).
Proof.
  intros (Hc & Hiff & Herr & Hcalls & Hlast).
  split; [by apply dispatch_consistent|].
  destruct Hc as [_ Hinv].
  destruct w as [[file url text loading err] pending nt nu cs con un].
  simpl in *. destruct ev as [f| |id o]; run_handlers.
  - repeat split; eauto.
  - destruct (bool_decide_reflect (is_Some url)) as [Hurl|Hurl], loading;
      simpl; try done.
    subst pending. apply Hiff in Hurl as [f ->]. run_handlers.
    split; [done|]. split; [by left|]. split; [by apply callsPaired_snoc_encode|].
    intros id f' Hl. rewrite insert_empty in Hl.
    apply lookup_singleton_Some in Hl as [_ [= <-]]. apply last_snoc.
  - destruct (pending !! id) as [t|] eqn:Hl; simpl; [|done].
    destruct loading; [|subst pending; by rewrite lookup_empty in Hl].
    destruct Hinv as (-> & -> & id' & t' & ->).
    apply lookup_singleton_Some in Hl as [-> ->].
    rewrite delete_singleton_eq.
    destruct t as [f|f], o as [v|r]; run_handlers;
      (split; [done|]); (split; [by (left + right)|]).
    + split.
      * apply callsPaired_snoc_extract; [done|].
        apply (Hlast id). apply lookup_singleton_eq.
      * intros id'' f' Hl. rewrite insert_empty in Hl.
        by apply lookup_singleton_Some in Hl as [_ ?].
    + split; [done|]. intros ? ? Hl. by rewrite lookup_empty in Hl.
    + split; [done|]. intros ? ? Hl. by rewrite lookup_empty in Hl.
    + split; [done|]. intros ? ? Hl. by rewrite lookup_empty in Hl.
Qed.

Lemma reachable_coherent evs : coherent (run evs initialWorld).
Proof.
  induction evs as [|ev evs IH] using rev_ind; [apply coherent_initial|].
  rewrite run_snoc. by apply dispatch_coherent.
Qed.

(** Only a selection changes the selected file, its URL, or the URL
    counter. *)
Lemma dispatch_selection ev w :
  (imageFile (app (dispatch ev w)), imageUrl (app (dispatch ev w)), next_url (dispatch ev w))
  = match ev with
    | SelectImage file => (Some file, Some (next_url w), S (next_url w))
    | _ => (imageFile (app w), imageUrl (app w), next_url w)
    end.
Proof.
  destruct w as [[file url text loading err] pending nt nu cs con un].
  destruct ev as [f| |id o]; run_handlers.
  - reflexivity.
  - destruct (bool_decide (is_Some url) && negb loading); [|reflexivity].
    by destruct file.
  - destruct (pending !! id) as [[f|f]|]; [destruct o|destruct o|]; reflexivity.
Qed.

Lemma provenance_mono evs ev w : provenance evs w → provenance (evs ++ [ev]) w.
Proof.
  intros (H1 & H2 & H3 & H4 & H5 & H6). repeat split.
  - intros f Hf. apply elem_of_app. left. eauto.
  - intros id f Hf. apply elem_of_app. left. eauto.
  - intros f Hf. apply elem_of_app. left. eauto.
  - intros b m Hb. destruct (H4 b m Hb) as [id Hid]. exists id.
    apply elem_of_app. by left.
  - intros e He. destruct (H5 e He) as [id Hid]. exists id.
    apply elem_of_app. by left.
  - destruct H6 as [H6|[id Hid]]; [by left|]. right. exists id.
    apply elem_of_app. by left.
Qed.

Lemma dispatch_provenance evs ev w :
  provenance evs w → provenance (evs ++ [ev]) (dispatch ev w).
Proof.
  intros Hp. pose proof (provenance_mono evs ev w Hp) as (H1 & H2 & H3 & H4 & H5 & H6).
  assert (Hev : ev ∈ evs ++ [ev]) by (apply elem_of_app; right; apply list_elem_of_here).
  clear Hp. destruct w as [[file url text loading err] pending nt nu cs con un].
  unfold provenance. simpl in *. destruct ev as [f| |id o]; run_handlers.
  - repeat split; try done; [by intros f' [= <-] | by left].
  - destruct (bool_decide (is_Some url) && negb loading); [|done].
    destruct file as [f|]; run_handlers; [|done].
    repeat split; try done; try (by left).
    + intros id f' Hl. apply lookup_insert_Some in Hl as [[_ [= <-]]|[_ Hl]]; eauto.
    + intros f' Hin. apply elem_of_app in Hin as [Hin|Hin]; [eauto|].
      apply list_elem_of_singleton in Hin as [= <-]. eauto.
    + intros b m Hin. apply elem_of_app in Hin as [Hin|Hin]; [eauto|].
      by apply list_elem_of_singleton in Hin.
  - destruct (pending !! id) as [t|] eqn:Hl; [|done].
    assert (Hdel : ∀ id' f', delete id pending !! id' = Some (AwaitFileToBase64 f') →
                             SelectImage f' ∈ evs ++ [Settle id o]).
    { intros id' f' Hd. apply lookup_delete_Some in Hd as [_ Hd]. eauto. }
    destruct t as [f|f], o as [v|r]; run_handlers; repeat split; try done;
      try (by (right; eauto)).
    + intros id' f' Hd. apply lookup_insert_Some in Hd as [[_ ?]|[_ Hd]]; [done|eauto].
    + intros f' Hin. apply elem_of_app in Hin as [Hin|Hin]; [eauto|].
      by apply list_elem_of_singleton in Hin.
    + intros b m Hin. apply elem_of_app in Hin as [Hin|Hin]; [eauto|].
      apply list_elem_of_singleton in Hin as [= <- _]. eauto.
    + intros e Hin. apply elem_of_app in Hin as [Hin|Hin]; [eauto|].
      apply list_elem_of_singleton in Hin as ->. eauto.
    + intros e Hin. apply elem_of_app in Hin as [Hin|Hin]; [eauto|].
      apply list_elem_of_singleton in Hin as ->. eauto.
Qed.

Lemma reachable_provenance evs : provenance evs (run evs initialWorld).
Proof.
  induction evs as [|ev evs IH] using rev_ind.
  - unfold provenance. simpl. repeat split; try (by left); intros;
      match goal with
      | H : ∅ !! _ = Some _ |- _ => by rewrite lookup_empty in H
      | H : _ ∈ [] |- _ => by apply elem_of_nil in H
      | H : None = Some _ |- _ => discriminate H
      end.
  - rewrite run_snoc. by apply dispatch_provenance.
Qed.

End EventLoopFurther.

(** X6: a whole successful extraction. From a reachable state that is not
    loading and has [file] selected, a click on the button, the encoder's
    answer and the service's answer lead to: the encoder called with
    [file], then the service called with the encoder's output and the
    declared type of [file]; the service's text in the extracted-text
    slot; loading ended, no error, nothing in flight. The panel shows the
    rendered transcript, or the placeholder when the service answered with
    the empty string. *)
Theorem X6_successful_extraction (w : World) (file : File) (base64 result : jsstring) :
  reachable w → imageFile (app w) = Some file → isLoading (app w) = false →
  app (run [ClickExtract; Settle (next_task w) (Fulfilled base64);
            Settle (next_task w) (Fulfilled result)] w)
  = mkApp (Some file) (imageUrl (app w)) result false None
  ∧ calls (run [ClickExtract; Settle (next_task w) (Fulfilled base64);
                Settle (next_task w) (Fulfilled result)] w)
    = calls w ++ [CallFileToBase64 file;
                  CallExtractTextFromImage base64 (file_type file)]
  ∧ inflight (run [ClickExtract; Settle (next_task w) (Fulfilled base64);
                   Settle (next_task w) (Fulfilled result)] w) = ∅
  ∧ display (app (run [ClickExtract; Settle (next_task w) (Fulfilled base64);
                       Settle (next_task w) (Fulfilled result)] w))
    = mkScreen false None
        (if truthy result then Transcript (renderText result) else Placeholder).
Proof.
  intros [evs ->] Hfile Hload.
  destruct (reachable_coherent evs) as ([_ Hinv] & Hiff & _).
  destruct (run evs initialWorld) as [[f u text loading err] pending nt nu cs con un].
  simpl in *. subst f loading pending.
  destruct (proj1 Hiff (mk_is_Some _ _ eq_refl)) as [url ->].
  unfold run. cbn [foldl]. run_handlers.
  rewrite (bool_decide_true (is_Some (Some url))) by eauto. cbn [andb negb].
  run_handlers. settle_maps. run_handlers. settle_maps. run_handlers. settle_maps.
  rewrite <- app_assoc. repeat split.
Qed.

Lemma X6_successful_extraction_witness :
  app (run [ClickExtract; Settle 0 (Fulfilled (of_ascii "iVBORw=="));
            Settle 0 (Fulfilled (of_ascii "#Hi"))] (run [SelectImage pageA] initialWorld))
  = mkApp (Some pageA) (Some 0%nat) (of_ascii "#Hi") false None
  ∧ calls (run [ClickExtract; Settle 0 (Fulfilled (of_ascii "iVBORw=="));
                Settle 0 (Fulfilled (of_ascii "#Hi"))] (run [SelectImage pageA] initialWorld))
    = [CallFileToBase64 pageA;
       CallExtractTextFromImage (of_ascii "iVBORw==") (of_ascii "image/png")].
Proof.
  destruct (X6_successful_extraction (run [SelectImage pageA] initialWorld) pageA
              (of_ascii "iVBORw==") (of_ascii "#Hi")) as (H1 & H2 & _).
  - exists [SelectImage pageA]. reflexivity.
  - reflexivity.
  - reflexivity.
  - split; [exact H1 | exact H2].
Defined.

(** X7: the request works on the file that was selected when the button
    was clicked. If another image is selected while the encoder runs, the
    service is still called with the encoder's output and the declared
    type of the first file, while the preview already shows the second. *)
Theorem X7_request_keeps_its_file (w : World) (file other : File) (base64 : jsstring) :
  reachable w → imageFile (app w) = Some file → isLoading (app w) = false →
  calls (run [ClickExtract; SelectImage other;
              Settle (next_task w) (Fulfilled base64)] w)
  = calls w ++ [CallFileToBase64 file;
                CallExtractTextFromImage base64 (file_type file)]
  ∧ imageFile (app (run [ClickExtract; SelectImage other;
                         Settle (next_task w) (Fulfilled base64)] w)) = Some other
  ∧ inflight (run [ClickExtract; SelectImage other;
                   Settle (next_task w) (Fulfilled base64)] w)
    = {[next_task w := AwaitExtractTextFromImage file]}.
Proof.
  intros [evs ->] Hfile Hload.
  destruct (reachable_coherent evs) as ([_ Hinv] & Hiff & _).
  destruct (run evs initialWorld) as [[f u text loading err] pending nt nu cs con un].
  simpl in *. subst f loading pending.
  destruct (proj1 Hiff (mk_is_Some _ _ eq_refl)) as [url ->].
  unfold run. cbn [foldl]. run_handlers.
  rewrite (bool_decide_true (is_Some (Some url))) by eauto. cbn [andb negb].
  run_handlers. settle_maps. run_handlers. settle_maps.
  rewrite <- app_assoc. repeat split.
Qed.

Lemma X7_request_keeps_its_file_witness :
  calls (run [ClickExtract; SelectImage pageB; Settle 0 (Fulfilled (of_ascii "iVBORw=="))]
           (run [SelectImage pageA] initialWorld))
  = [CallFileToBase64 pageA;
     CallExtractTextFromImage (of_ascii "iVBORw==") (of_ascii "image/png")]
  ∧ imageFile (app (run [ClickExtract; SelectImage pageB;
                         Settle 0 (Fulfilled (of_ascii "iVBORw=="))]
                      (run [SelectImage pageA] initialWorld))) = Some pageB.
Proof.
  destruct (X7_request_keeps_its_file (run [SelectImage pageA] initialWorld) pageA pageB
              (of_ascii "iVBORw==")) as (H1 & H2 & _).
  - exists [SelectImage pageA]. reflexivity.
  - reflexivity.
  - reflexivity.
  - split; [exact H1 | exact H2].
Defined.

(** X8: after any sequence of events the selected image is the last file
    selected, every selection got an object URL of its own (the URLs
    handed out are as many as the selections, none is reused or released),
    the preview shows the URL of the last selection, and the extract
    button is on screen exactly when an image is selected. *)
Theorem X8_selection_is_the_last_file (evs : list Event) :
  imageFile (app (run evs initialWorld)) = last (selectedFiles evs)
  ∧ next_url (run evs initialWorld) = length (selectedFiles evs)
  ∧ imageUrl (app (run evs initialWorld))
    = match length (selectedFiles evs) with
      | O => None
      | S n => Some n
      end
  ∧ buttonRendered (app (run evs initialWorld))
    = bool_decide (is_Some (imageFile (app (run evs initialWorld)))).
Proof.
  assert (H : (imageFile (app (run evs initialWorld)),
               imageUrl (app (run evs initialWorld)), next_url (run evs initialWorld))
              = (last (selectedFiles evs),
                 match length (selectedFiles evs) with O => None | S n => Some n end,
                 length (selectedFiles evs))).
  { induction evs as [|ev evs IH] using rev_ind; [reflexivity|].
    rewrite run_snoc, dispatch_selection. unfold selectedFiles in *.
    rewrite omap_app.
    destruct ev as [f| |id o]; simpl.
    - injection IH as _ _ IH3.
      rewrite last_snoc, length_app, IH3. simpl. rewrite Nat.add_1_r. reflexivity.
    - rewrite app_nil_r. exact IH.
    - rewrite app_nil_r. exact IH. }
  injection H as H1 H2 H3. repeat split; try assumption.
  unfold buttonRendered. rewrite H1, H2.
  destruct (selectedFiles evs) as [|f l] using rev_ind; [reflexivity|].
  rewrite last_snoc, length_app. simpl. rewrite Nat.add_1_r. reflexivity.
Qed.

(** X9: in every reachable state the result panel shows exactly one of
    its three parts: the loading overlay, the error line, or the body
    (transcript or placeholder). *)
Theorem X9_one_panel_at_a_time (evs : list Event) :
  panels (display (app (run evs initialWorld))) = 1%nat.
Proof.
  destruct (reachable_consistent evs) as [_ Hinv].
  destruct (run evs initialWorld) as [[f u text loading err] pending nt nu cs con un].
  simpl in *. unfold panels, display, errorShown. simpl. destruct loading.
  - destruct Hinv as (_ & -> & _). reflexivity.
  - destruct err as [[|c m]|]; simpl; by destruct text.
Qed.

(** X10: in every reachable state the error slot is empty or holds the
    extraction-failure message: the validation message of
    [handleExtractText] is never set, because the button that runs the
    handler can only be clicked when an image is selected. *)
Theorem X10_validation_branch_is_dead (evs : list Event) :
  (error (app (run evs initialWorld)) = None
   ∨ error (app (run evs initialWorld)) = Some MSG_EXTRACT_FAILED)
  ∧ (banner (display (app (run evs initialWorld))) = None
     ∨ banner (display (app (run evs initialWorld))) = Some MSG_EXTRACT_FAILED)
  ∧ (buttonClickable (app (run evs initialWorld)) = true →
     is_Some (imageFile (app (run evs initialWorld)))).
Proof.
  destruct (reachable_coherent evs) as (_ & Hiff & Herr & _).
  destruct (run evs initialWorld) as [[f u text loading err] pending nt nu cs con un].
  simpl in *. split; [exact Herr|]. split.
  - unfold display, errorShown. simpl. destruct Herr as [->| ->]; [by left | by right].
  - unfold buttonClickable, buttonRendered. simpl. intros Hb.
    apply andb_true_iff in Hb as [Hb _]. apply bool_decide_eq_true in Hb.
    by apply Hiff.
Qed.

(** X11: the extraction service is never called on its own: each of its
    calls comes right after a call of the encoder and carries the declared
    type of the file that was encoded. *)
Theorem X11_service_follows_encoder
    (evs : list Event) (i : nat) (base64 mimeType : jsstring) :
  calls (run evs initialWorld) !! i = Some (CallExtractTextFromImage base64 mimeType) →
  ∃ j file, i = S j
    ∧ calls (run evs initialWorld) !! j = Some (CallFileToBase64 file)
    ∧ mimeType = file_type file.
Proof.
  destruct (reachable_coherent evs) as (_ & _ & _ & Hcalls & _). apply Hcalls.
Qed.

Lemma X11_service_follows_encoder_witness :
  ∃ j file, 1%nat = S j
    ∧ calls (run [SelectImage pageA; ClickExtract; Settle 0 (Fulfilled (of_ascii "iVBORw=="))]
               initialWorld) !! j = Some (CallFileToBase64 file)
    ∧ of_ascii "image/png" = file_type file.
Proof.
  apply (X11_service_follows_encoder
           [SelectImage pageA; ClickExtract; Settle 0 (Fulfilled (of_ascii "iVBORw=="))]
           1 (of_ascii "iVBORw==") (of_ascii "image/png")).
  vm_compute. reflexivity.
Defined.

(** X12: nothing is made up along the way: a file handed to the encoder
    was selected before, what the service receives is something a promise
    was fulfilled with, what is logged to the console is the reason of a
    rejection, and the extracted text is empty or something a promise was
    fulfilled with. *)
Theorem X12_provenance (evs : list Event) :
  (∀ file, CallFileToBase64 file ∈ calls (run evs initialWorld) →
     SelectImage file ∈ evs)
  ∧ (∀ base64 mimeType,
       CallExtractTextFromImage base64 mimeType ∈ calls (run evs initialWorld) →
       ∃ id, Settle id (Fulfilled base64) ∈ evs)
  ∧ (∀ reason, reason ∈ console (run evs initialWorld) →
       ∃ id, Settle id (Rejected reason) ∈ evs)
  ∧ (extractedText (app (run evs initialWorld)) = []
     ∨ ∃ id, Settle id (Fulfilled (extractedText (app (run evs initialWorld)))) ∈ evs).
Proof.
  destruct (reachable_provenance evs) as (_ & _ & H3 & H4 & H5 & H6). by repeat split.
Qed.

(** X13: a failed extraction can be tried again. Once the pending request
    is rejected, a click on the button starts a new request for the
    selected image: the error is cleared, loading starts again, the
    encoder is called once more, and the new request is the only one in
    flight. *)
Theorem X13_retry_after_failure
    (w : World) (id : nat) (t : Task) (reason : JsError) (file : File) :
  reachable w → inflight w !! id = Some t → imageFile (app w) = Some file →
  app (run [Settle id (Rejected reason); ClickExtract] w)
  = mkApp (Some file) (imageUrl (app w)) [] true None
  ∧ inflight (run [Settle id (Rejected reason); ClickExtract] w)
    = {[next_task w := AwaitFileToBase64 file]}
  ∧ calls (run [Settle id (Rejected reason); ClickExtract] w)
    = calls w ++ [CallFileToBase64 file].
Proof.
  intros [evs ->] Hl Hfile.
  destruct (consistent_inflight _ _ _ (reachable_consistent evs) Hl)
    as (Hload & _ & _ & Hp & _).
  destruct (reachable_coherent evs) as (_ & Hiff & _).
  destruct (run evs initialWorld) as [[f u text loading err] pending nt nu cs con un].
  simpl in *. subst f loading pending. clear Hl.
  destruct (proj1 Hiff (mk_is_Some _ _ eq_refl)) as [url ->].
  unfold run. cbn [foldl]. run_handlers. settle_maps.
  destruct t; run_handlers;
    rewrite (bool_decide_true (is_Some (Some url))) by eauto; cbn [andb negb];
    run_handlers; settle_maps; repeat split.
Qed.

Lemma X13_retry_after_failure_witness :
  app (run [Settle 0 (Rejected (mkError (of_ascii "quota"))); ClickExtract]
         (run [SelectImage pageA; ClickExtract] initialWorld))
  = mkApp (Some pageA) (Some 0%nat) [] true None
  ∧ inflight (run [Settle 0 (Rejected (mkError (of_ascii "quota"))); ClickExtract]
                (run [SelectImage pageA; ClickExtract] initialWorld))
    = {[1%nat := AwaitFileToBase64 pageA]}.
Proof.
  destruct (X13_retry_after_failure (run [SelectImage pageA; ClickExtract] initialWorld)
              0 (AwaitFileToBase64 pageA) (mkError (of_ascii "quota")) pageA)
    as (H1 & H2 & _).
  - exists [SelectImage pageA; ClickExtract]. reflexivity.
  - vm_compute. reflexivity.
  - reflexivity.
  - split; [exact H1 | exact H2].
Defined.

(** ** The page *)

Section PageFacts.

Implicit Types (p : Page) (ev : UiEvent) (evs : list UiEvent) (e : FileEvent).

Lemma pageRun_snoc evs ev p : pageRun (evs ++ [ev]) p = pageDispatch ev (pageRun evs p).
Proof. unfold pageRun. by rewrite foldl_app. Qed.

Lemma selectFirst_world e w :
  snd (selectFirst handleImageSelect e w)
  = match firstFile e with
    | Some file => dispatch (SelectImage file) w
    | None => w
    end.
Proof.
  unfold selectFirst, firstFile. destruct (files e) as [fs|]; simpl; [|reflexivity].
  by destruct (fs !! 0%nat).
Qed.

Lemma selectFirst_ok e w : fst (selectFirst handleImageSelect e w) = Ok ().
Proof.
  unfold selectFirst. destruct (files e) as [fs|]; [|reflexivity].
  by destruct (fs !! 0%nat).
Qed.

Lemma world_pageDispatch ev p :
  world (pageDispatch ev p) = run (appEvents ev) (world p).
Proof.
  destruct ev as [e|e|e| |id o| |]; simpl; try reflexivity.
  - unfold handleFileChange, mbind, M_bind.
    pose proof (selectFirst_ok e (world p)) as Hok.
    pose proof (selectFirst_world e (world p)) as Hw.
    destruct (selectFirst handleImageSelect e (world p)) as [[[]|err] w']; simpl in *;
      [|discriminate]. subst w'. by destruct (firstFile e).
  - unfold handleDrop, mbind, M_bind.
    pose proof (selectFirst_ok (stopPropagation (preventDefault e)) (world p)) as Hok.
    pose proof (selectFirst_world (stopPropagation (preventDefault e)) (world p)) as Hw.
    destruct (selectFirst handleImageSelect _ (world p)) as [[[]|err] w']; simpl in *;
      [|discriminate]. subst w'.
    change (firstFile (stopPropagation (preventDefault e))) with (firstFile e).
    by destruct (firstFile e).
  - by destruct (showsTranscript (app (world p))).
  - by destruct (timers p).
Qed.

Lemma world_pageRun evs p :
  world (pageRun evs p) = run (evs ≫= appEvents) (world p).
Proof.
  induction evs as [|ev evs IH] using rev_ind; [reflexivity|].
  rewrite pageRun_snoc, world_pageDispatch, IH, bind_app, run_app.
  simpl. by rewrite app_nil_r.
Qed.

(** While the check mark shows, a timer that will clear it is pending;
    and nothing empty was ever written to the clipboard. *)
Lemma page_invariant evs :
  (copied (pageRun evs initialPage) = true → timers (pageRun evs initialPage) ≠ [])
  ∧ Forall (λ text, truthy text = true) (clipboardWrites (pageRun evs initialPage)).
Proof.
  induction evs as [|ev evs [IH1 IH2]] using rev_ind.
  - split; [discriminate | constructor].
  - rewrite pageRun_snoc. destruct (pageRun evs initialPage) as [w c ws ts].
    simpl in *. destruct ev as [e|e|e| |id o| |]; simpl; try (split; assumption).
    + unfold showsTranscript, display. simpl.
      destruct (negb (isLoading (app w)) && _); [|by split].
      destruct (extractedText (app w)) as [|a text] eqn:Htext; simpl; [by split|].
      split; [intros _; by destruct ts|].
      apply Forall_app. split; [assumption|]. apply Forall_singleton. by rewrite Htext.
    + destruct ts; simpl; by split.
Qed.

Lemma fire_all w c ws t ts :
  pageRun (replicate (length (t :: ts)) TimerFires) (mkPage w c ws (t :: ts))
  = mkPage w false ws [].
Proof.
  revert c t. induction ts as [|t' ts IH]; intros c t; [reflexivity|].
  exact (IH false t').
Qed.

End PageFacts.

(** X14: picking and dropping files do the same to the application: with
    no file list, or an empty one, nothing changes; otherwise the first
    file is selected, whatever comes after it in the list and whatever its
    type. A drop also prevents the browser's default and stops the event;
    dragging over does only that. *)
Theorem X14_first_file_only (w : World) (e : FileEvent) :
  snd (handleFileChange handleImageSelect e w)
  = match firstFile e with
    | Some file => dispatch (SelectImage file) w
    | None => w
    end
  ∧ snd (handleDrop handleImageSelect e w) = snd (handleFileChange handleImageSelect e w)
  ∧ fst (handleFileChange handleImageSelect e w) = Ok e
  ∧ fst (handleDrop handleImageSelect e w) = Ok (mkFileEvent (files e) true true)
  ∧ handleDragOver e w = (Ok (mkFileEvent (files e) true true), w)
  ∧ (∀ file others prevented stopped,
       app (snd (handleDrop handleImageSelect
                   (mkFileEvent (Some (file :: others)) prevented stopped) w))
       = mkApp (Some file) (Some (next_url w)) [] (isLoading (app w)) None).
Proof.
  pose proof (selectFirst_ok e w) as Hok1.
  pose proof (selectFirst_world e w) as Hw1.
  pose proof (selectFirst_ok (stopPropagation (preventDefault e)) w) as Hok2.
  pose proof (selectFirst_world (stopPropagation (preventDefault e)) w) as Hw2.
  change (firstFile (stopPropagation (preventDefault e))) with (firstFile e) in Hw2.
  unfold handleFileChange, handleDrop, handleDragOver, mbind, M_bind, mret, M_ret.
  cbv zeta.
  destruct (selectFirst handleImageSelect e w) as [[[]|err1] w1]; [|discriminate].
  destruct (selectFirst handleImageSelect (stopPropagation (preventDefault e)) w)
    as [[[]|err2] w2]; [|discriminate].
  simpl in *. subst w1 w2. repeat split.
Qed.

(** X15: whatever is picked, dropped, clicked or settled, a file that
    reaches the encoder was the first file of some pick or drop. *)
Theorem X15_encoder_gets_first_files (evs : list UiEvent) (file : File) :
  CallFileToBase64 file ∈ calls (world (pageRun evs initialPage)) →
  ∃ e, (PickFiles e ∈ evs ∨ DropFiles e ∈ evs) ∧ firstFile e = Some file.
Proof.
  rewrite world_pageRun. intros Hcall.
  destruct (reachable_provenance (evs ≫= appEvents)) as (_ & _ & H3 & _).
  apply H3 in Hcall. apply list_elem_of_bind in Hcall as (ev & Hin & Hev).
  destruct ev as [e|e|e| |id o| |]; simpl in Hin;
    try (by apply elem_of_nil in Hin);
    try (by apply list_elem_of_singleton in Hin).
  - destruct (firstFile e) as [f|] eqn:Hf; [|by apply elem_of_nil in Hin].
    apply list_elem_of_singleton in Hin as [= ->]. exists e. split; [by left | done].
  - destruct (firstFile e) as [f|] eqn:Hf; [|by apply elem_of_nil in Hin].
    apply list_elem_of_singleton in Hin as [= ->]. exists e. split; [by right | done].
Qed.

Lemma X15_encoder_gets_first_files_witness :
  ∃ e, (PickFiles e ∈ [DropFiles (mkFileEvent (Some [pageA; pageB]) false false);
                        ClickExtractButton]
        ∨ DropFiles e ∈ [DropFiles (mkFileEvent (Some [pageA; pageB]) false false);
                          ClickExtractButton])
       ∧ firstFile e = Some pageA.
Proof.
  apply (X15_encoder_gets_first_files
           [DropFiles (mkFileEvent (Some [pageA; pageB]) false false); ClickExtractButton]
           pageA).
  vm_compute. apply list_elem_of_here.
Defined.


(** X17: the check mark never sticks: after any sequence of events, if it
    shows then a timer is pending, and once the pending timers have fired
    it is cleared and no timer is left. *)
Theorem X17_check_mark_is_cleared (evs : list UiEvent) :
  (copied (pageRun evs initialPage) = true → timers (pageRun evs initialPage) ≠ [])
  ∧ copied (pageRun (replicate (length (timers (pageRun evs initialPage))) TimerFires)
              (pageRun evs initialPage)) = false
  ∧ timers (pageRun (replicate (length (timers (pageRun evs initialPage))) TimerFires)
              (pageRun evs initialPage)) = [].
Proof.
  destruct (page_invariant evs) as [Hinv _]. split; [exact Hinv|].
  destruct (pageRun evs initialPage) as [w c ws ts]. simpl in *.
  destruct ts as [|t ts].
  - simpl. split; [|reflexivity]. destruct c; [|reflexivity]. by destruct Hinv.
  - by rewrite fire_all.
Qed.

(** X18: the timers are not told apart. When the copy button is clicked
    while the timer of an earlier copy is pending, that earlier timer
    clears the check mark of the new copy when it fires, with the timer of
    the new copy still pending. *)
Theorem X18_earlier_timer_clears_later_copy (p : Page) :
  showsTranscript (app (world p)) = true → timers p ≠ [] →
  copied (pageDispatch ClickCopy p) = true
  ∧ copied (pageRun [ClickCopy; TimerFires] p) = false
  ∧ length (timers (pageRun [ClickCopy; TimerFires] p)) = length (timers p)
  ∧ timers (pageRun [ClickCopy; TimerFires] p) ≠ [].
Proof.
  intros Hs Ht. destruct p as [w c ws ts]. simpl in *.
  unfold pageRun. simpl. rewrite Hs. simpl.
  destruct ts as [|t ts]; [done|]. simpl. rewrite length_app. simpl.
  repeat split; [lia|]. by destruct ts.
Qed.

Lemma X18_earlier_timer_clears_later_copy_witness :
  copied (pageRun [ClickCopy; TimerFires]
            (pageRun [PickFiles (mkFileEvent (Some [pageA]) false false);
                      ClickExtractButton;
                      PromiseSettles 0 (Fulfilled (of_ascii "iVBORw=="));
                      PromiseSettles 0 (Fulfilled (of_ascii "#Hi"));
                      ClickCopy] initialPage)) = false
  ∧ timers (pageRun [ClickCopy; TimerFires]
              (pageRun [PickFiles (mkFileEvent (Some [pageA]) false false);
                        ClickExtractButton;
                        PromiseSettles 0 (Fulfilled (of_ascii "iVBORw=="));
                        PromiseSettles 0 (Fulfilled (of_ascii "#Hi"));
                        ClickCopy] initialPage)) = [2000].
Proof.
  destruct (X18_earlier_timer_clears_later_copy
              (pageRun [PickFiles (mkFileEvent (Some [pageA]) false false);
                        ClickExtractButton;
                        PromiseSettles 0 (Fulfilled (of_ascii "iVBORw=="));
                        PromiseSettles 0 (Fulfilled (of_ascii "#Hi"));
                        ClickCopy] initialPage)) as (_ & H2 & _).
  - vm_compute. reflexivity.
  - vm_compute. discriminate.
  - split; [exact H2 | vm_compute; reflexivity].
Defined.
